(** * BigQueryChat: the message formatting pipeline of [src/format_message.py]

    A shallow embedding of [format_message] and [format_timestamp_label].

    Python strings are sequences of code points; here a string is a list of
    [ascii] values read as the code points 0..255, with the character classes
    of Python's [re] and [str] methods on that range.  Regular expressions are
    syntax trees run by a backtracking matcher that tries alternatives in the
    order Python's [re] does. *)

From Stdlib Require Import Ascii String List ZArith NArith Lia Bool Arith.
From Stdlib Require Import Permutation Sorted.
Import ListNotations.

Local Open Scope string_scope.
Local Open Scope list_scope.
Local Open Scope nat_scope.

(** ** Strings and characters *)

Definition str := list ascii.

Definition lit (s : string) : str := list_ascii_of_string s.

Definition LF : ascii := "010"%char.

(** [unlines] writes a multi-line text: the lines joined by a line feed. *)
Fixpoint unlines (ls : list string) : str :=
  match ls with
  | [] => []
  | [l] => lit l
  | l :: rest => lit l ++ LF :: unlines rest
  end.

Definition code (c : ascii) : N := N_of_ascii c.

Definition between (lo hi : N) (c : ascii) : bool :=
  ((lo <=? code c) && (code c <=? hi))%N.

Definition code_is (n : N) (c : ascii) : bool := (code c =? n)%N.

(** [str.isspace], which is also [\s] of [re] and what [str.strip] removes. *)
Definition isspace (c : ascii) : bool :=
  between 9 13 c || between 28 32 c || code_is 133 c || code_is 160 c.

(** [\w] of [re] on a [str] pattern: alphanumeric or underscore. *)
Definition isword (c : ascii) : bool :=
  between 48 57 c || between 65 90 c || code_is 95 c || between 97 122 c
  || code_is 170 c || between 178 179 c || code_is 181 c || between 185 186 c
  || between 188 190 c || between 192 214 c || between 216 246 c
  || between 248 255 c.

(** [\d] of [re]. *)
Definition isdigit (c : ascii) : bool := between 48 57 c.

Definition lower_char (c : ascii) : ascii :=
  if between 65 90 c || between 192 214 c || between 216 222 c
  then ascii_of_N (code c + 32)
  else c.

(** [str.lower] on the code points 0..255, where it works character by
    character: a capital becomes its small letter, every other character
    stays.  (Beyond this range it may also lengthen a text: U+0130 becomes
    two code points.) *)
Definition lower (s : str) : str := map lower_char s.

Fixpoint lstrip (s : str) : str :=
  match s with
  | [] => []
  | c :: s' => if isspace c then lstrip s' else s
  end.

Definition rstrip (s : str) : str := rev (lstrip (rev s)).

(** [str.strip()]. *)
Definition strip (s : str) : str := rstrip (lstrip s).

(** [str.split(sep)] for a separator of one character. *)
Fixpoint split (sep : ascii) (s : str) : list str :=
  match s with
  | [] => [[]]
  | c :: s' =>
      if Ascii.eqb c sep then [] :: split sep s'
      else match split sep s' with
           | w :: ws => (c :: w) :: ws
           | [] => [[c]]
           end
  end.

(** [str.startswith]. *)
Fixpoint startswith (p s : str) : bool :=
  match p, s with
  | [], _ => true
  | a :: p', b :: s' => Ascii.eqb a b && startswith p' s'
  | _ :: _, [] => false
  end.

(** Truth value of a Python string: non-empty. *)
Definition truthy (s : str) : bool :=
  match s with [] => false | _ :: _ => true end.

(** ** Regular expressions

    The constructs the patterns of this module use.  [Repeat true r] is [r*],
    [Repeat false r] is [r*?], [Group n r] is the n-th capturing group and
    [EndAnchor] is [$] without [re.MULTILINE]. *)

Inductive regex : Type :=
| Lit (c : ascii)
| Class (p : ascii -> bool)
| Empty
| Cat (r1 r2 : regex)
| Or (r1 r2 : regex)
| Repeat (greedy : bool) (r : regex)
| Group (n : nat) (r : regex)
| EndAnchor.

Definition Opt (r : regex) : regex := Or r Empty.
Definition Plus (r : regex) : regex := Cat r (Repeat true r).

Fixpoint Cats (rs : list regex) : regex :=
  match rs with
  | [] => Empty
  | [r] => r
  | r :: rest => Cat r (Cats rest)
  end.

Definition Word (s : string) : regex := Cats (map Lit (lit s)).

(** Captured groups, most recent first. *)
Definition caps := list (nat * str).

(** The text of group [n], the empty string when the group did not take
    part in the match (what [findall] reports). *)
Fixpoint group (n : nat) (c : caps) : str :=
  match c with
  | [] => []
  | (m, s) :: c' => if Nat.eqb m n then s else group n c'
  end.

(** [$]: at the end of the text, or before a line feed that ends it. *)
Definition at_end (s : str) : bool :=
  match s with
  | [] => true
  | [c] => Ascii.eqb c LF
  | _ => false
  end.

(** A matcher runs on the text that is left, with the groups captured so
    far, and hands what remains to its continuation; [None] is failure and
    makes the caller try its next alternative. *)
Definition outcome := option (str * caps).
Definition cont := str -> caps -> outcome.
Definition matcher := str -> caps -> cont -> outcome.

(** Repetition of [body].  An iteration has to consume text, so at most
    [length s] iterations are possible on [s]. *)
Fixpoint repeat_loop (body : matcher) (greedy : bool) (fuel : nat)
  (s : str) (c : caps) (k : cont) : outcome :=
  match fuel with
  | O => k s c
  | S f =>
      if greedy then
        match body s c (fun s' c' =>
                if length s' <? length s
                then repeat_loop body greedy f s' c' k else None) with
        | Some r => Some r
        | None => k s c
        end
      else
        match k s c with
        | Some r => Some r
        | None =>
            body s c (fun s' c' =>
                if length s' <? length s
                then repeat_loop body greedy f s' c' k else None)
        end
  end.

Fixpoint run (r : regex) (s : str) (c : caps) (k : cont) {struct r} : outcome :=
  match r with
  | Lit a =>
      match s with
      | x :: s' => if Ascii.eqb x a then k s' c else None
      | [] => None
      end
  | Class p =>
      match s with
      | x :: s' => if p x then k s' c else None
      | [] => None
      end
  | Empty => k s c
  | Cat r1 r2 => run r1 s c (fun s1 c1 => run r2 s1 c1 k)
  | Or r1 r2 =>
      match run r1 s c k with
      | Some res => Some res
      | None => run r2 s c k
      end
  | Repeat g r1 => repeat_loop (run r1) g (length s) s c k
  | Group n r1 =>
      run r1 s c (fun s1 c1 =>
        k s1 ((n, firstn (length s - length s1) s) :: c1))
  | EndAnchor => if at_end s then k s c else None
  end.

(** One attempt at the start of [s]: the text after the match and the
    groups. *)
Definition match_at (r : regex) (s : str) : outcome :=
  run r s [] (fun s' c' => Some (s', c')).

(** The leftmost match in [s]: the text skipped before it, its groups and the
    text after it. *)
Fixpoint search (r : regex) (s : str) : option (str * caps * str) :=
  match match_at r s with
  | Some (rest, c) => Some ([], c, rest)
  | None =>
      match s with
      | [] => None
      | x :: s' =>
          match search r s' with
          | Some (pre, c, rest) => Some (x :: pre, c, rest)
          | None => None
          end
      end
  end.

(** The successive non-overlapping matches of [re.finditer], each with the
    text between the previous match and itself, and the text after the last
    one.  Every pattern of this module starts with a literal character, so a
    match is never empty and [fuel] above [length s] is never used up. *)
Fixpoint finditer (fuel : nat) (r : regex) (s : str)
  : list (str * caps) * str :=
  match fuel with
  | O => ([], s)
  | S f =>
      match search r s with
      | None => ([], s)
      | Some (pre, c, rest) =>
          let '(hs, tail) := finditer f r rest in
          ((pre, c) :: hs, tail)
      end
  end.

Definition matches (r : regex) (s : str) : list (str * caps) * str :=
  finditer (S (length s)) r s.

(** [re.findall] for a pattern with two groups. *)
Definition findall2 (r : regex) (s : str) : list (str * str) :=
  map (fun h => (group 1 (snd h), group 2 (snd h))) (fst (matches r s)).

(** [re.split] for a pattern with one group. *)
Definition re_split1 (r : regex) (s : str) : list str :=
  let '(hs, tail) := matches r s in
  concat (map (fun h => [fst h; group 1 (snd h)]) hs) ++ [tail].

(** [re.sub(pattern, "", s)]. *)
Definition re_sub_empty (r : regex) (s : str) : str :=
  let '(hs, tail) := matches r s in
  concat (map fst hs) ++ tail.

(** ** The patterns of [format_message] *)

Definition any_char (_ : ascii) : bool := true.
Definition not_newline (c : ascii) : bool := negb (Ascii.eqb c LF).

(** [.] with and without [re.DOTALL]. *)
Definition dot (dotall : bool) : regex :=
  Class (if dotall then any_char else not_newline).

(** [r"```(\w+)?\n(.*?)```"] with [re.DOTALL]. *)
Definition code_pattern : regex :=
  Cats [Word "```"; Opt (Group 1 (Plus (Class isword))); Lit LF;
        Group 2 (Repeat false (dot true)); Word "```"].

(** [r"```(?:\w+)?\n(.*?)```"] with [re.DOTALL]. *)
Definition split_pattern : regex :=
  Cats [Word "```"; Opt (Plus (Class isword)); Lit LF;
        Group 1 (Repeat false (dot true)); Word "```"].

(** The class [[-\s|]]. *)
Definition sepchar (c : ascii) : bool :=
  Ascii.eqb c "-" || isspace c || Ascii.eqb c "|".

(** The table pattern [df_pattern], piece by piece:
    [\|  \s*  (.*?)  \s*  \|  (?:\n\|[-\s|]+\|)?  \n  ( (?:\|.*\|(?:\n|$))* )].
    [re.findall] runs it without flags, [re.sub] with [re.DOTALL]. *)
Definition df_pattern (dotall : bool) : regex :=
  Cats [Lit "|"; Repeat true (Class isspace);
        Group 1 (Repeat false (dot dotall));
        Repeat true (Class isspace); Lit "|";
        Opt (Cats [Lit LF; Lit "|"; Plus (Class sepchar); Lit "|"]);
        Lit LF;
        Group 2 (Repeat true
                   (Cats [Lit "|"; Repeat true (dot dotall); Lit "|";
                          Or (Lit LF) EndAnchor]))].

(** ** [format_message] *)

(** A table as [pd.DataFrame(data, columns=headers)] holds it: the column
    labels and the rows of cells.  The loop below only builds a frame from
    rows that have as many cells as there are labels, which the constructor
    accepts. *)
Record TableBlock : Type := DataFrame { rows : list (list str); headers : list str }.

(** [[h.strip() for h in line.split("|") if h.strip()]]. *)
Definition cells (line : str) : list str :=
  map strip (filter (fun h => truthy (strip h)) (split "|" line)).

(** The loop over [enumerate(rows.strip().split("\n"))] that fills [data]. *)
Fixpoint rows_loop (headers : list str) (idx : nat) (lines : list str)
  (data : list (list str)) : list (list str) :=
  match lines with
  | [] => data
  | r :: rest =>
      let row_values := cells r in
      if (idx =? 0) && forallb (startswith (lit ":")) row_values
      then rows_loop headers (S idx) rest data
      else if length row_values =? length headers
      then rows_loop headers (S idx) rest (data ++ [row_values])
      else rows_loop headers (S idx) rest data
  end.

(** The body of [for header, rows in df_matches]: the frame to append, if
    any. *)
Definition table_of_match (m : str * str) : option TableBlock :=
  let '(header, rows) := m in
  let headers := cells header in
  let data := rows_loop headers 0 (split LF (strip rows)) [] in
  match data with
  | [] => None
  | _ :: _ => Some (DataFrame data headers)
  end.

Fixpoint tables_loop (df_matches : list (str * str))
  (dataframes : list TableBlock) : list TableBlock :=
  match df_matches with
  | [] => dataframes
  | m :: rest =>
      match table_of_match m with
      | Some df => tables_loop rest (dataframes ++ [df])
      | None => tables_loop rest dataframes
      end
  end.

(** The f-string that wraps a piece of text. *)
Definition html_open : str :=
  LF :: lit "                    <div style='background-color: #545353; padding: 10px; border-radius: 10px; max-width: 70%; "
  ++ LF :: lit "                    text-align: left; color: white; margin-bottom: 10px;'>"
  ++ LF :: lit "                        ".

Definition html_close : str :=
  LF :: lit "                    </div>"
  ++ LF :: lit "                    ".

Definition wrap_html (non_table_text : str) : str :=
  html_open ++ non_table_text ++ html_close.

Record loop_state : Type := LoopState {
  formatted_html : str;
  code_snippets : list (str * str);
  dataframes : list TableBlock;
  code_index : nat
}.

(** The branch [i % 2 == 0]. *)
Definition text_branch (df_matches : list (str * str)) (part : str)
  (st : loop_state) : loop_state :=
  let html :=
    if truthy part then
      let non_table_text := strip (re_sub_empty (df_pattern true) part) in
      if truthy non_table_text
      then formatted_html st ++ wrap_html non_table_text
      else formatted_html st
    else formatted_html st in
  LoopState html (code_snippets st)
            (tables_loop df_matches (dataframes st)) (code_index st).

(** The snippet made of one [(language, code)] pair of [code_blocks]. *)
Definition snippet_of (code_block : str * str) : str * str :=
  let '(language, code) := code_block in
  let language := if truthy language then lower language
                  else lit "plaintext" in
  (strip code, language).

(** The branch of the odd indices. *)
Definition code_branch (code_blocks : list (str * str)) (st : loop_state)
  : loop_state :=
  match nth_error code_blocks (code_index st) with
  | Some code_block =>
      LoopState (formatted_html st)
                (code_snippets st ++ [snippet_of code_block])
                (dataframes st) (S (code_index st))
  | None => st
  end.

(** [for i, part in enumerate(parts)]. *)
Fixpoint parts_loop (code_blocks df_matches : list (str * str)) (i : nat)
  (parts : list str) (st : loop_state) : loop_state :=
  match parts with
  | [] => st
  | part :: rest =>
      let part := strip part in
      parts_loop code_blocks df_matches (S i) rest
        (if Nat.even i then text_branch df_matches part st
         else code_branch code_blocks st)
  end.

Definition format_message (message : str)
  : str * list (str * str) * list TableBlock :=
  let code_blocks := findall2 code_pattern message in
  let df_matches := findall2 (df_pattern false) message in
  let parts := re_split1 split_pattern message in
  let st := parts_loop code_blocks df_matches 0 parts (LoopState [] [] [] 0) in
  (formatted_html st, code_snippets st, dataframes st).

(** The three channels of the result. *)
Definition text_of (message : str) : str := fst (fst (format_message message)).
Definition snippets_of (message : str) : list (str * str) :=
  snd (fst (format_message message)).
Definition tables_of (message : str) : list TableBlock :=
  snd (format_message message).

(** ** [format_timestamp_label] *)

Local Open Scope Z_scope.

(** A [datetime.datetime] value (the fields this module reads). *)
Record datetime : Type := mk_datetime {
  year : Z; month : Z; day : Z; hour : Z; minute : Z; second : Z
}.

(** What the caller may pass: a [str], a [datetime], or anything else. *)
Inductive value : Type :=
| Str (s : str)
| Datetime (d : datetime)
| Other.

(** Calendar arithmetic of the [datetime] module. *)
Definition is_leap (y : Z) : bool :=
  (y mod 4 =? 0) && (negb (y mod 100 =? 0) || (y mod 400 =? 0)).

Definition days_in_month (y m : Z) : Z :=
  if m =? 2 then (if is_leap y then 29 else 28)
  else if (m =? 4) || (m =? 6) || (m =? 9) || (m =? 11) then 30
  else 31.

Definition days_before_year (y : Z) : Z :=
  let y1 := y - 1 in y1 * 365 + y1 / 4 - y1 / 100 + y1 / 400.

Definition days_before_month (y m : Z) : Z :=
  nth (Z.to_nat m) [0; 0; 31; 59; 90; 120; 151; 181; 212; 243; 273; 304; 334] 0
  + (if (2 <? m) && is_leap y then 1 else 0).

Definition ymd2ord (y m d : Z) : Z :=
  days_before_year y + days_before_month y m + d.

(** A [datetime.date] is held as its proleptic Gregorian ordinal
    ([date.toordinal()]): dates compare as their ordinals do, and subtracting
    [timedelta(days=n)] subtracts [n] from the ordinal. *)
Definition date := Z.

(** [timestamp.date()]. *)
Definition date_of (t : datetime) : date := ymd2ord (year t) (month t) (day t).

Definition valid_datetime (t : datetime) : bool :=
  (1 <=? year t) && (year t <=? 9999) && (1 <=? month t) && (month t <=? 12)
  && (1 <=? day t) && (day t <=? days_in_month (year t) (month t))
  && (0 <=? hour t) && (hour t <=? 23) && (0 <=? minute t)
  && (minute t <=? 59) && (0 <=? second t) && (second t <=? 59).

(** [d - timedelta(days=n)], [None] for the [OverflowError] below
    [date.min]. *)
Definition minus_days (d : date) (n : Z) : option date :=
  if 1 <=? d - n then Some (d - n) else None.

(** *** [datetime.strptime] *)

Definition Range (lo hi : ascii) : regex := Class (between (code lo) (code hi)).
Definition Digit : regex := Class isdigit.

Fixpoint Ors (rs : list regex) : regex :=
  match rs with
  | [] => Empty
  | [r] => r
  | r :: rest => Or r (Ors rest)
  end.

(** The directives as [_strptime.TimeRE] spells them; the named groups
    [Y m d H M S] are numbered 1 to 6. *)
Definition re_Y : regex := Group 1 (Cats [Digit; Digit; Digit; Digit]).
Definition re_m : regex :=
  Group 2 (Ors [Cat (Lit "1") (Range "0" "2"); Cat (Lit "0") (Range "1" "9");
                Range "1" "9"]).
Definition re_d : regex :=
  Group 3 (Ors [Cat (Lit "3") (Range "0" "1"); Cat (Range "1" "2") Digit;
                Cat (Lit "0") (Range "1" "9"); Range "1" "9";
                Cat (Lit " ") (Range "1" "9")]).
Definition re_H : regex :=
  Group 4 (Ors [Cat (Lit "2") (Range "0" "3"); Cat (Range "0" "1") Digit;
                Digit]).
Definition re_M : regex := Group 5 (Ors [Cat (Range "0" "5") Digit; Digit]).
Definition re_S : regex :=
  Group 6 (Ors [Cat (Lit "6") (Range "0" "1"); Cat (Range "0" "5") Digit;
                Digit]).

(** ["%Y-%m-%d %H:%M:%S"]: the blank of the format stands for [\s+]. *)
Definition datetime_format : regex :=
  Cats [re_Y; Lit "-"; re_m; Lit "-"; re_d; Plus (Class isspace);
        re_H; Lit ":"; re_M; Lit ":"; re_S].

(** ["%Y-%m-%d"]. *)
Definition date_format : regex :=
  Cats [re_Y; Lit "-"; re_m; Lit "-"; re_d].

(** [int] on a field: blanks are skipped, digits accumulate; a field that is
    not part of the format keeps its default 0. *)
Definition int_of (s : str) : Z :=
  fold_left (fun acc ch => if isdigit ch then acc * 10 + (Z.of_N (code ch) - 48)
                           else acc) s 0.

(** [datetime.strptime(s, format)]; [None] is its [ValueError]: no match,
    text left over, or field values that make no [datetime]. *)
Definition strptime (s : str) (format : regex) : option datetime :=
  match match_at format s with
  | Some ([], c) =>
      let t := mk_datetime (int_of (group 1 c)) (int_of (group 2 c))
                 (int_of (group 3 c)) (int_of (group 4 c))
                 (int_of (group 5 c)) (int_of (group 6 c)) in
      if valid_datetime t then Some t else None
  | _ => None
  end.

Definition digit_char (n : Z) : ascii := ascii_of_N (Z.to_N (48 + n mod 10)).

(** [%Y] of [strftime], which CPython 3.11 hands to the C library; that of
    Linux writes the year in decimal without leading zeros, so a year below
    1000 has fewer than four digits. *)
Definition year_text (y : Z) : str :=
  (if 1000 <=? y then [digit_char (y / 1000)] else [])
  ++ (if 100 <=? y then [digit_char (y / 100)] else [])
  ++ (if 10 <=? y then [digit_char (y / 10)] else [])
  ++ [digit_char y].

(** [timestamp.strftime("%Y-%m-%d")]: the year as [%Y] writes it, the month
    and the day on two digits. *)
Definition strftime_ymd (t : datetime) : str :=
  year_text (year t)
  ++ ["-"%char; digit_char (month t / 10); digit_char (month t); "-"%char;
      digit_char (day t / 10); digit_char (day t)].

(** What a call does: return a label, or let the [OverflowError] of the date
    arithmetic escape. *)
Inductive result : Type :=
| Return (label : str)
| OverflowError.

Definition with_date (d : option date) (k : date -> result) : result :=
  match d with
  | Some x => k x
  | None => OverflowError
  end.

(** The comparisons on [timestamp_date], with [today] the date of
    [datetime.now()]. *)
Definition label_of (today : date) (timestamp : datetime) : result :=
  let timestamp_date := date_of timestamp in
  if timestamp_date =? today then Return (lit "Today")
  else
    with_date (minus_days today 1) (fun d1 =>
    if timestamp_date =? d1 then Return (lit "Yesterday")
    else
      with_date (minus_days today 7) (fun d7 =>
      if (d7 <=? timestamp_date) && (timestamp_date <? d1)
      then Return (lit "Previous 7 days")
      else
        with_date (minus_days today 30) (fun d30 =>
        if (d30 <=? timestamp_date) && (timestamp_date <? d7)
        then Return (lit "Previous 30 days")
        else Return (strftime_ymd timestamp)))).

(** The first part of the function: the [datetime] the argument stands for,
    if any. *)
Definition parse_timestamp (timestamp : value) : option datetime :=
  match timestamp with
  | Str s =>
      match strptime s datetime_format with
      | Some t => Some t
      | None => strptime s date_format
      end
  | Datetime t => Some t
  | Other => None
  end.

Definition format_timestamp_label (today : date) (timestamp : value) : result :=
  match parse_timestamp timestamp with
  | None => Return (lit "Invalid timestamp")
  | Some t => label_of today t
  end.

Local Close Scope Z_scope.

(** * The sidebar of [streamlit_app.py]

    The loop that sorts the rows of [get_all_conversations] into groups, one
    for each label of [format_timestamp_label]. *)

(** Equality of two strings, as the keys of a [dict] compare. *)
Fixpoint str_eqb (a b : str) : bool :=
  match a, b with
  | [], [] => true
  | x :: a', y :: b' => Ascii.eqb x y && str_eqb a' b'
  | _, _ => false
  end.

(** The [defaultdict(list)]: its keys with their lists, in the order in
    which the keys were inserted. *)
Definition groups : Type := list (str * list (Z * str)).

(** [grouped_conversations[label].append(item)]: a key that is missing
    comes last, with an empty list to append to. *)
Fixpoint append_to_group (label : str) (item : Z * str) (grouped : groups)
  : groups :=
  match grouped with
  | [] => [(label, [item])]
  | (key, items) :: rest =>
      if str_eqb key label then (key, items ++ [item]) :: rest
      else (key, items) :: append_to_group label item rest
  end.

(** [for conversation_id, topic, timestamp in past_conversations]; [None]
    when the call of [format_timestamp_label] raises. *)
Fixpoint group_conversations (today : date)
  (past_conversations : list (Z * str * value)) (grouped : groups)
  : option groups :=
  match past_conversations with
  | [] => Some grouped
  | (conversation_id, topic, timestamp) :: rest =>
      match format_timestamp_label today timestamp with
      | Return label =>
          group_conversations today rest
            (append_to_group label (conversation_id, topic) grouped)
      | OverflowError => None
      end
  end.

(** * [bigquery_manager.py] and [tools.py]

    What [BigQueryManager] computes before and after it calls the BigQuery
    client, and what the tool built on it answers.  The client is a
    parameter. *)

(** The pattern of [execute_query] after its [^]: the word [```sql], a
    group that holds a greedy [.*] under [re.DOTALL], three backticks and
    [$]. *)
Definition sql_fence_pattern : regex :=
  Cats [Word "```sql"; Group 1 (Repeat true (dot true)); Word "```";
        EndAnchor].

(** [re.sub] of that pattern by its group 1 in [query].  Without
    [re.MULTILINE] a [^] holds at the start of the text only: the pattern is
    tried there, and nowhere else can it match. *)
Definition remove_sql_fence (query : str) : str :=
  match match_at sql_fence_pattern query with
  | Some (rest, c) => group 1 c ++ rest
  | None => query
  end.

(** [query.strip().lower().startswith(("create", "alter"))]. *)
Definition is_ddl (query : str) : bool :=
  let q := lower (strip query) in
  startswith (lit "create") q || startswith (lit "alter") q.

(** The fields of [bigquery.QueryJobConfig] that [execute_query] sets:
    [destination], and whether [write_disposition] is [WRITE_TRUNCATE]. *)
Record QueryJobConfig : Type := mk_job_config {
  destination : option str;
  write_truncate : bool
}.

(** The first part of [execute_query]: the text and the configuration that
    go to [client.query].  [project_id] and [dataset_id] are the texts that
    the f-string prints for them; [destination_table] is [None] or a
    string. *)
Definition query_job (project_id dataset_id query : str)
  (destination_table : option str) : str * QueryJobConfig :=
  let job_config :=
    match destination_table with
    | Some table =>
        if truthy table && negb (is_ddl query)
        then mk_job_config
               (Some (project_id ++ "."%char :: dataset_id
                      ++ "."%char :: table)) true
        else mk_job_config None false
    | None => mk_job_config None false
    end in
  (remove_sql_fence query, job_config).

(** [s.count(ch)] for one character. *)
Definition count_char (ch : ascii) (s : str) : nat :=
  length (filter (Ascii.eqb ch) s).

(** The table reference that [get_table_schema] hands to
    [client.get_table]. *)
Definition table_ref_of (project_id dataset_id table_id : str) : str :=
  if negb (existsb (Ascii.eqb ".") table_id)
  then project_id ++ "."%char :: dataset_id ++ "."%char :: table_id
  else if count_char "." table_id =? 1
  then project_id ++ "."%char :: table_id
  else table_id.

(** A call that returns a value or raises an exception [e], kept as the
    text [str(e)]. *)
Inductive raising (A : Type) : Type :=
| Returns (a : A)
| Raises (message : str).

Arguments Returns {A} a.
Arguments Raises {A} message.

(** A field of [table.schema]. *)
Record SchemaField : Type := mk_field {
  name : str;
  field_type : str;
  mode : str;
  description : option str
}.

(** A row of [schema_data]: column name, field type, mode, description. *)
Definition schema_row : Type := (str * str * str * str)%type.

(** What [get_table_schema] returns: [None], a frame, or a string. *)
Inductive schema_info : Type :=
| NoSchema
| SchemaFrame (schema_data : list schema_row)
| SchemaText (text : str).

Section BigQueryClient.

Variables project_id dataset_id : str.

(** [client.get_table(table_ref).schema], and [DataFrame.to_markdown]. *)
Variable get_table : str -> raising (list SchemaField).
Variable to_markdown : list schema_row -> raising str.

Definition row_of_field (field : SchemaField) : schema_row :=
  (name field, field_type field, mode field,
   match description field with
   | Some (c :: text) => c :: text
   | _ => lit "N/A"
   end).

Definition get_table_schema (table_id : str) : schema_info :=
  match get_table (table_ref_of project_id dataset_id table_id) with
  | Returns schema =>
      match map row_of_field schema with
      | [] => NoSchema
      | schema_data => SchemaFrame schema_data
      end
  | Raises e => SchemaText (lit "error: " ++ e)
  end.

(** The tool of [tools.py]. *)
Definition fetch_bigquery_schema (table_id : str) : str :=
  match get_table_schema table_id with
  | NoSchema => lit "Table `" ++ table_id ++ lit "` not found."
  | SchemaFrame schema_data =>
      match to_markdown schema_data with
      | Returns text =>
          lit "Schema for table " ++ table_id ++ lit ":" ++ LF :: LF :: text
      | Raises e => lit "Error executing: " ++ e
      end
  | SchemaText text => lit "Schema information: " ++ text
  end.

End BigQueryClient.

(** * [sql_lite_handler.py]

    The two tables of the store and the statements that [DatabaseManager]
    runs on them.  A table may be missing (the file is new and
    [create_db_if_not_there] has not run): a statement on a missing table
    fails with [sqlite3.OperationalError].  Foreign keys are not enforced,
    as in a connection of [sqlite3] that does not ask for them. *)

(** A row of [conversations]: [id], [topic], [timestamp]. *)
Record conversation_row : Type := mk_conversation {
  conv_id : Z;
  conv_topic : str;
  conv_timestamp : str
}.

(** A row of [messages]: [id], [conversation_id] (which may be [NULL]),
    [timestamp], [sender], [message]. *)
Record message_row : Type := mk_message {
  msg_id : Z;
  msg_conversation_id : option Z;
  msg_timestamp : str;
  msg_sender : str;
  msg_message : str
}.

(** A table with an [AUTOINCREMENT] key: its rows, and the largest key that
    it ever held (its entry in [sqlite_sequence]). *)
Record table (A : Type) : Type := mk_table {
  table_rows : list A;
  sequence : Z
}.

Arguments mk_table {A} table_rows sequence.
Arguments table_rows {A} t.
Arguments sequence {A} t.

Record database : Type := mk_database {
  conversations : option (table conversation_row);
  messages : option (table message_row)
}.

(** The key of a new row: one more than the largest key that the table
    holds or ever held. *)
Definition next_rowid {A : Type} (id_of : A -> Z) (t : table A) : Z :=
  (fold_right Z.max (sequence t) (map id_of (table_rows t)) + 1)%Z.

(** The largest key that a table can hold. *)
Definition max_rowid : Z := 9223372036854775807%Z.

(** [INSERT] of a row that is built from its key; there is no table after
    it when the keys are used up. *)
Definition insert_row {A : Type} (id_of : A -> Z) (row : Z -> A) (t : table A)
  : option (table A) :=
  let id := next_rowid id_of t in
  if (id <=? max_rowid)%Z then Some (mk_table (table_rows t ++ [row id]) id)
  else None.

(** [DELETE ... WHERE]: the rows for which the condition holds go, the
    sequence stays. *)
Definition delete_rows {A : Type} (condition : A -> bool) (t : table A)
  : table A :=
  mk_table (filter (fun row => negb (condition row)) (table_rows t))
           (sequence t).

(** [column = ?] for a column without [NULL] and for one that may hold it:
    a comparison with [NULL] is never true. *)
Definition id_is (parameter : option Z) (id : Z) : bool :=
  match parameter with
  | Some p => (id =? p)%Z
  | None => false
  end.

Definition column_is (parameter : option Z) (column : option Z) : bool :=
  match column with
  | Some id => id_is parameter id
  | None => false
  end.

Definition no_such_table (table_name : string) : str :=
  lit "no such table: " ++ lit table_name.

Definition database_full : str := lit "database or disk is full".

(** [CREATE TABLE IF NOT EXISTS], twice. *)
Definition create_db_if_not_there (db : database) : database :=
  mk_database
    (match conversations db with
     | Some t => Some t
     | None => Some (mk_table [] 0%Z)
     end)
    (match messages db with
     | Some t => Some t
     | None => Some (mk_table [] 0%Z)
     end).

(** [save_conversation(topic)] when [CURRENT_TIMESTAMP] gives the text
    [now]: what the call returns ([lastrowid]) or raises, and the database
    after it. *)
Definition save_conversation (db : database) (now topic : str)
  : raising Z * database :=
  match conversations db with
  | Some t =>
      match insert_row conv_id (fun id => mk_conversation id topic now) t with
      | Some t' => (Returns (sequence t'), mk_database (Some t') (messages db))
      | None => (Raises database_full, db)
      end
  | None => (Raises (no_such_table "conversations"), db)
  end.

Definition save_message (db : database) (now : str)
  (conversation_id : option Z) (sender message : str)
  : raising unit * database :=
  match messages db with
  | Some t =>
      match insert_row msg_id
              (fun id => mk_message id conversation_id now sender message)
              t with
      | Some t' => (Returns tt, mk_database (conversations db) (Some t'))
      | None => (Raises database_full, db)
      end
  | None => (Raises (no_such_table "messages"), db)
  end.

(** [delete_conversation(conversation_id)]: two [DELETE] statements and a
    commit.  When the second statement fails the connection is closed
    without a commit and the first one is undone. *)
Definition delete_conversation (db : database) (conversation_id : option Z)
  : raising unit * database :=
  match messages db, conversations db with
  | Some m, Some c =>
      (Returns tt,
       mk_database
         (Some (delete_rows (fun row => id_is conversation_id (conv_id row)) c))
         (Some (delete_rows
                  (fun row => column_is conversation_id
                                (msg_conversation_id row)) m)))
  | None, _ => (Raises (no_such_table "messages"), db)
  | Some _, None => (Raises (no_such_table "conversations"), db)
  end.

(** The order of two timestamps as texts. *)
Fixpoint str_leb (a b : str) : bool :=
  match a, b with
  | [], _ => true
  | _ :: _, [] => false
  | x :: a', y :: b' =>
      if (code x <? code y)%N then true
      else if (code y <? code x)%N then false
      else str_leb a' b'
  end.

(** The answers that a [SELECT] may give: the selected rows in some order,
    which [ORDER BY] narrows down to the orders that are sorted (rows with
    equal keys come in any order). *)
Definition selected {A : Type} (rows : list A) (ordered : A -> A -> Prop)
  (answer : list A) : Prop :=
  Permutation rows answer /\ StronglySorted ordered answer.

Definition any_order {A : Type} (_ _ : A) : Prop := True.

(** [get_all_topics()]: the topics in some order, and the empty list when
    the statement fails. *)
Definition get_all_topics (db : database) (answer : list str) : Prop :=
  match conversations db with
  | Some t => selected (map conv_topic (table_rows t)) any_order answer
  | None => answer = []
  end.

(** [get_conversation_id_by_topic(topic)]: the key of the first row that
    the statement gives, [None] when it gives none or fails. *)
Definition get_conversation_id_by_topic (db : database) (topic : str)
  (answer : option Z) : Prop :=
  match conversations db with
  | Some t =>
      exists found,
        selected (filter (fun row => str_eqb (conv_topic row) topic)
                         (table_rows t)) any_order found
        /\ answer = match found with
                    | [] => None
                    | row :: _ => Some (conv_id row)
                    end
  | None => answer = None
  end.

(** [get_all_conversations()]: [ORDER BY timestamp DESC]. *)
Definition get_all_conversations (db : database)
  (answer : list (Z * str * str)) : Prop :=
  match conversations db with
  | Some t =>
      exists found,
        selected (table_rows t)
          (fun a b => str_leb (conv_timestamp b) (conv_timestamp a) = true)
          found
        /\ answer = map (fun row => (conv_id row, conv_topic row,
                                     conv_timestamp row)) found
  | None => answer = []
  end.

(** [get_messages_by_conversation(conversation_id)]: [ORDER BY
    timestamp]. *)
Definition get_messages_by_conversation (db : database)
  (conversation_id : option Z) (answer : list (str * str)) : Prop :=
  match messages db with
  | Some t =>
      exists found,
        selected (filter (fun row => column_is conversation_id
                                       (msg_conversation_id row))
                         (table_rows t))
          (fun a b => str_leb (msg_timestamp a) (msg_timestamp b) = true)
          found
        /\ answer = map (fun row => (msg_sender row, msg_message row)) found
  | None => answer = []
  end.

(** * [streamlit_app.py]: deleting the selected conversation *)

(** The button of the sidebar: when a topic is selected, its key is looked
    up and the conversation with this key is deleted.  The databases that
    may come out. *)
Definition delete_selected_conversation (db : database)
  (conversation_to_delete : option str) (db' : database) : Prop :=
  match conversation_to_delete with
  | Some [] | None => db' = db
  | Some topic =>
      exists conversation_id_to_delete,
        get_conversation_id_by_topic db topic conversation_id_to_delete
        /\ db' = snd (delete_conversation db conversation_id_to_delete)
  end.

(** * Notions used in the statements *)

(** ** Counting the parts *)

(** How many of the indices [i, i+1, ..., i+n-1] are even, and how many
    odd. *)
Fixpoint evens (i n : nat) : nat :=
  match n with
  | O => O
  | S n' => (if Nat.even i then 1 else 0) + evens (S i) n'
  end.

Fixpoint odds (i n : nat) : nat :=
  match n with
  | O => O
  | S n' => (if Nat.even i then 0 else 1) + odds (S i) n'
  end.

(** ** Matchers *)

(** A match hands its continuation a suffix of the text. *)
Definition hands_suffix (m : matcher) : Prop :=
  forall s c k res, m s c k = Some res ->
    exists s' c', k s' c' = Some res /\ length s' <= length s.

(** Patterns that cannot match the empty text. *)
Fixpoint consumes (r : regex) : bool :=
  match r with
  | Lit _ | Class _ => true
  | Empty | EndAnchor | Repeat _ _ => false
  | Cat r1 r2 => consumes r1 || consumes r2
  | Or r1 r2 => consumes r1 && consumes r2
  | Group _ r1 => consumes r1
  end.

Fixpoint erase (r : regex) : regex :=
  match r with
  | Group _ r1 => erase r1
  | Cat r1 r2 => Cat (erase r1) (erase r2)
  | Or r1 r2 => Or (erase r1) (erase r2)
  | Repeat g r1 => Repeat g (erase r1)
  | Lit _ | Class _ | Empty | EndAnchor => r
  end.

(** Two outcomes that agree on success and on the text that is left. *)
Definition same_rest (o o' : outcome) : Prop :=
  match o, o' with
  | Some (a, _), Some (b, _) => a = b
  | None, None => True
  | _, _ => False
  end.

Definition same_cont (k k' : cont) : Prop :=
  forall s c c', same_rest (k s c) (k' s c').

Definition same_matcher (m m' : matcher) : Prop :=
  forall s c c' k k', same_cont k k' -> same_rest (m s c k) (m' s c' k').

(** Two patterns that match the same text at every place. *)
Definition same_language (r r' : regex) : Prop :=
  forall s, same_rest (match_at r s) (match_at r' s).

(** ** Fences *)

(** Three backticks somewhere in the text. *)
Fixpoint has_fence (s : str) : bool :=
  startswith (lit "```") s
  || match s with
     | [] => false
     | _ :: s' => has_fence s'
     end.

(** What the documentation asks of an opening fence: a line that starts with
    three backticks. *)
Definition line_starts_with_fence (message : str) : bool :=
  existsb (startswith (lit "```")) (split LF message).

(** A match hands its continuation the text with some first characters
    taken off. *)
Definition hands_rest (m : matcher) : Prop :=
  forall s c k res, m s c k = Some res ->
    exists n c', k (skipn n s) c' = Some res.

(** Three backticks that are followed, later on, by three more. *)
Fixpoint has_fence_pair (s : str) : bool :=
  (startswith (lit "```") s && has_fence (skipn 3 s))
  || match s with
     | [] => false
     | _ :: s' => has_fence_pair s'
     end.

(** A text that is not empty and has no white space at either end. *)
Definition trimmed (s : str) : Prop := s <> [] /\ strip s = s.

(** Whether group [n] is one of the groups of a pattern. *)
Fixpoint captures (n : nat) (r : regex) : bool :=
  match r with
  | Lit _ | Class _ | Empty | EndAnchor => false
  | Cat r1 r2 | Or r1 r2 => captures n r1 || captures n r2
  | Repeat _ r1 => captures n r1
  | Group m r1 => Nat.eqb m n || captures n r1
  end.

(** A matcher that leaves group [n] as it found it. *)
Definition keeps_group (n : nat) (m : matcher) : Prop :=
  forall s c k res, m s c k = Some res ->
    exists s' c', k s' c' = Some res /\ group n c' = group n c.

(** The list under a key, empty for a key that is not there. *)
Fixpoint group_of (label : str) (grouped : groups) : list (Z * str) :=
  match grouped with
  | [] => []
  | (key, items) :: rest =>
      if str_eqb key label then items else group_of label rest
  end.

(** Whether a row of [get_all_conversations] gets a given label. *)
Definition labelled (today : date) (label : str) (row : Z * str * value)
  : bool :=
  match format_timestamp_label today (snd row) with
  | Return l => str_eqb l label
  | OverflowError => false
  end.

(** A table whose keys are pairwise distinct and not above its
    sequence. *)
Definition well_keyed {A : Type} (id_of : A -> Z) (t : table A) : Prop :=
  NoDup (map id_of (table_rows t))
  /\ forall row, In row (table_rows t) -> (id_of row <= sequence t)%Z.

Definition well_formed (db : database) : Prop :=
  (forall t, conversations db = Some t -> well_keyed conv_id t)
  /\ (forall t, messages db = Some t -> well_keyed msg_id t).

(** The sequence of [conversations], 0 while the table is missing. *)
Definition sequence_of (db : database) : Z :=
  match conversations db with
  | Some t => sequence t
  | None => 0%Z
  end.

(** The calls that change the store. *)
Inductive operation : Type :=
| CreateDb
| SaveConversation (now topic : str)
| SaveMessage (now : str) (conversation_id : option Z) (sender message : str)
| DeleteConversation (conversation_id : option Z).

(** The database after one call, and the key that the call returned when
    it was a [save_conversation] that did not raise. *)
Definition call (db : database) (op : operation) : database * list Z :=
  match op with
  | CreateDb => (create_db_if_not_there db, [])
  | SaveConversation now topic =>
      match save_conversation db now topic with
      | (Returns id, db') => (db', [id])
      | (Raises _, db') => (db', [])
      end
  | SaveMessage now conversation_id sender message =>
      (snd (save_message db now conversation_id sender message), [])
  | DeleteConversation conversation_id =>
      (snd (delete_conversation db conversation_id), [])
  end.

(** The database after a series of calls, and the keys that were returned,
    in order. *)
Fixpoint calls (db : database) (ops : list operation) : database * list Z :=
  match ops with
  | [] => (db, [])
  | op :: rest =>
      let '(db1, ids1) := call db op in
      let '(db2, ids2) := calls db1 rest in
      (db2, ids1 ++ ids2)
  end.

(** ** The notions of the documentation *)

(** The ISO form of a date: the year on four digits, the month and the day
    on two, with hyphens between them. *)
Definition iso_date (y m d : Z) : str :=
  [digit_char (y / 1000); digit_char (y / 100); digit_char (y / 10);
   digit_char y; "-"%char; digit_char (m / 10); digit_char m; "-"%char;
   digit_char (d / 10); digit_char d].

(** *** The fenced regions, read from left to right *)

(** The word characters that a text starts with, and the text after
    them. *)
Fixpoint take_word (s : str) : str :=
  match s with
  | c :: s' => if isword c then c :: take_word s' else []
  | [] => []
  end.

Fixpoint after_word (s : str) : str :=
  match s with
  | c :: s' => if isword c then after_word s' else s
  | [] => []
  end.

(** The text before the first three backticks, and the text after them. *)
Fixpoint before_fence (s : str) : str :=
  if startswith (lit "```") s then []
  else match s with
       | c :: s' => c :: before_fence s'
       | [] => []
       end.

Fixpoint after_fence (s : str) : str :=
  if startswith (lit "```") s then skipn 3 s
  else match s with
       | _ :: s' => after_fence s'
       | [] => []
       end.

(** A fence opens at the start of [s]: three backticks, at once word
    characters (possibly none) and a line feed, and three more backticks
    somewhere after the line feed. *)
Definition opens_fence (s : str) : bool :=
  startswith (lit "```") s
  && match after_word (skipn 3 s) with
     | c :: s' => Ascii.eqb c LF && has_fence s'
     | [] => false
     end.

(** The first fenced region of a text: its language token, the text from
    its line feed to the nearest three backticks, and the text after
    these. *)
Fixpoint first_region (s : str) : option (str * str * str) :=
  if opens_fence s then
    let inside := skipn 1 (after_word (skipn 3 s)) in
    Some (take_word (skipn 3 s), before_fence inside, after_fence inside)
  else match s with
       | _ :: s' => first_region s'
       | [] => None
       end.

(** The capital letters among the code points 0..255: A to Z and the
    accented capitals.  The small letter of each lies 32 code points above
    it. *)
Definition is_upper (c : ascii) : bool :=
  between 65 90 c || between 192 214 c || between 216 222 c.

(** [language] is the lower-case form of [token]: the same text character
    by character, with the small letter in place of each capital. *)
Definition lowercase_form (token language : str) : Prop :=
  Forall2 (fun a b => code b = if is_upper a then (code a + 32)%N else code a)
          token language.

(** * Properties *)

(** *** The examples of the documentation *)

Example fenced_python :
  format_message (unlines ["```python"; "print(1)"; "```"])
  = ([], [(lit "print(1)", lit "python")], []).
Proof. vm_compute. reflexivity. Qed.

Example fenced_unlabelled :
  snippets_of (unlines ["```"; "x=1"; "```"]) = [(lit "x=1", lit "plaintext")].
Proof. vm_compute. reflexivity. Qed.

Example well_formed_table :
  tables_of (unlines ["| A | B |"; "|---|---|"; "| 1 | 2 |"])
  = [DataFrame [[lit "1"; lit "2"]] [lit "A"; lit "B"]].
Proof. vm_compute. reflexivity. Qed.

Example wrong_arity_only_row :
  tables_of (unlines ["| A | B |"; "|---|---|"; "| 1 | 2 | 3 |"]) = [].
Proof. vm_compute. reflexivity. Qed.

(** ** The table rows *)

Section Rows.

Variable hs : list str.

Lemma rows_loop_arity lines : forall idx data row,
  (forall r, In r data -> length r = length hs) ->
  In row (rows_loop hs idx lines data) -> length row = length hs.
Proof.
  induction lines as [|l lines IH]; intros idx data row Hdata; cbn [rows_loop].
  - apply Hdata.
  - destruct ((idx =? 0) && forallb (startswith (lit ":")) (cells l)).
    + now apply IH.
    + destruct (length (cells l) =? length hs) eqn:E; [|now apply IH].
      apply IH. intros r Hr. apply in_app_or in Hr.
      destruct Hr as [Hr|[<-|[]]]; [now apply Hdata|].
      now apply Nat.eqb_eq.
Qed.

(** After the first line the index plays no part. *)
Lemma rows_loop_later lines : forall i j data,
  rows_loop hs (S i) lines data = rows_loop hs (S j) lines data.
Proof.
  induction lines as [|l lines IH]; intros i j data; cbn [rows_loop]; [reflexivity|].
  change (S i =? 0) with false; change (S j =? 0) with false; cbn [andb].
  destruct (length (cells l) =? length hs); apply IH.
Qed.

End Rows.

Lemma table_of_match_sound m tb :
  table_of_match m = Some tb ->
  rows tb <> [] /\ forall row, In row (rows tb) -> length row = length (headers tb).
Proof.
  destruct m as [header rws]. unfold table_of_match.
  destruct (rows_loop (cells header) 0 (split LF (strip rws)) []) eqn:E;
    [discriminate|].
  intros [= <-]. cbn [rows headers]. split; [discriminate|].
  intros row Hrow. rewrite <- E in Hrow.
  eapply rows_loop_arity; [|exact Hrow]. intros r [].
Qed.

Lemma tables_loop_app ms : forall acc,
  tables_loop ms acc = acc ++ tables_loop ms [].
Proof.
  induction ms as [|m ms IH]; intros acc; cbn [tables_loop app].
  - now rewrite app_nil_r.
  - destruct (table_of_match m).
    + rewrite IH, (IH [_]). now rewrite app_assoc.
    + apply IH.
Qed.

Lemma tables_loop_In ms tb :
  In tb (tables_loop ms []) -> exists m, In m ms /\ table_of_match m = Some tb.
Proof.
  induction ms as [|m ms IH]; cbn [tables_loop app]; [intros []|].
  destruct (table_of_match m) eqn:E.
  - rewrite tables_loop_app. intros H. apply in_app_or in H.
    destruct H as [[<-|[]]|H].
    + exists m. split; [now left|assumption].
    + destruct (IH H) as (m' & Hm' & Ht). exists m'. split; [now right|assumption].
  - intros H. destruct (IH H) as (m' & Hm' & Ht).
    exists m'. split; [now right|assumption].
Qed.

Lemma skipn_nth_error {A} (l : list A) : forall n x,
  nth_error l n = Some x -> skipn n l = x :: skipn (S n) l.
Proof.
  induction l as [|a l IH]; intros [|n] x H; try discriminate.
  - now injection H as ->.
  - apply (IH n x H).
Qed.

(** ** The loop over the parts *)

Section Parts.

Variables code_blocks df_matches : list (str * str).

Lemma parts_loop_dataframes parts : forall i st,
  dataframes (parts_loop code_blocks df_matches i parts st)
  = dataframes st
    ++ concat (repeat (tables_loop df_matches []) (evens i (length parts))).
Proof.
  induction parts as [|p parts IH]; intros i st;
    cbn [parts_loop length evens odds repeat concat firstn map].
  - now rewrite app_nil_r.
  - rewrite IH. destruct (Nat.even i);
      cbn [text_branch dataframes Nat.add repeat concat].
    + rewrite tables_loop_app. now rewrite app_assoc.
    + unfold code_branch.
      now destruct (nth_error code_blocks (code_index st)).
Qed.

Lemma parts_loop_snippets parts : forall i st,
  code_snippets (parts_loop code_blocks df_matches i parts st)
  = code_snippets st
    ++ map snippet_of (firstn (odds i (length parts))
                              (skipn (code_index st) code_blocks)).
Proof.
  induction parts as [|p parts IH]; intros i st;
    cbn [parts_loop length evens odds repeat concat firstn map].
  - now rewrite app_nil_r.
  - rewrite IH. destruct (Nat.even i);
      cbn [text_branch code_snippets code_index Nat.add]; [reflexivity|].
    unfold code_branch.
    destruct (nth_error code_blocks (code_index st)) as [cb|] eqn:E;
      cbn [code_snippets code_index].
    + rewrite (skipn_nth_error _ _ _ E). cbn [firstn map].
      rewrite <- app_assoc. reflexivity.
    + apply nth_error_None in E. rewrite (skipn_all2 _ E).
      now rewrite !firstn_nil.
Qed.

End Parts.

(** ** The matcher *)

Lemma repeat_loop_suffix body greedy :
  hands_suffix body -> forall fuel, hands_suffix (repeat_loop body greedy fuel).
Proof.
  intros Hbody fuel. induction fuel as [|f IH]; intros s c k res; cbn [repeat_loop].
  - intros H. exists s, c. auto.
  - assert (Hmore : body s c (fun s' c' =>
                if length s' <? length s
                then repeat_loop body greedy f s' c' k else None) = Some res ->
              exists s' c', k s' c' = Some res /\ length s' <= length s).
    { intros H. apply Hbody in H. destruct H as (s1 & c1 & H & Hlen).
      destruct (length s1 <? length s); [|discriminate].
      apply IH in H. destruct H as (s2 & c2 & H & Hlen2).
      exists s2, c2. split; [assumption|lia]. }
    destruct greedy.
    + destruct (body s c _) eqn:E.
      * intros [= <-]. now apply Hmore.
      * intros H. exists s, c. auto.
    + destruct (k s c) eqn:E.
      * intros [= <-]. exists s, c. auto.
      * apply Hmore.
Qed.

Lemma run_suffix r : hands_suffix (run r).
Proof.
  induction r as [a|p| |r1 IH1 r2 IH2|r1 IH1 r2 IH2|g r1 IH1|n r1 IH1| ];
    intros s c k res; cbn [run].
  - destruct s as [|x s]; [discriminate|].
    destruct (Ascii.eqb x a); [|discriminate].
    intros H. exists s, c. cbn [length]. auto.
  - destruct s as [|x s]; [discriminate|].
    destruct (p x); [|discriminate].
    intros H. exists s, c. cbn [length]. auto.
  - intros H. exists s, c. auto.
  - intros H. apply IH1 in H. destruct H as (s1 & c1 & H & Hlen).
    apply IH2 in H. destruct H as (s2 & c2 & H & Hlen2).
    exists s2, c2. split; [assumption|lia].
  - destruct (run r1 s c k) eqn:E.
    + intros [= <-]. now apply IH1 in E.
    + apply IH2.
  - apply repeat_loop_suffix, IH1.
  - intros H. apply IH1 in H. destruct H as (s1 & c1 & H & Hlen).
    eexists _, _. split; [exact H|assumption].
  - destruct (at_end s); [|discriminate]. intros H. exists s, c. auto.
Qed.

Lemma run_consumes r : consumes r = true ->
  forall s c k res, run r s c k = Some res ->
    exists s' c', k s' c' = Some res /\ length s' < length s.
Proof.
  induction r as [a|p| |r1 IH1 r2 IH2|r1 IH1 r2 IH2|g r1 IH1|n r1 IH1| ];
    cbn [consumes]; try discriminate; intros Hc s c k res; cbn [run].
  - destruct s as [|x s]; [discriminate|].
    destruct (Ascii.eqb x a); [|discriminate].
    intros H. exists s, c. cbn [length]. auto.
  - destruct s as [|x s]; [discriminate|].
    destruct (p x); [|discriminate].
    intros H. exists s, c. cbn [length]. auto.
  - intros H. destruct (consumes r1) eqn:E1.
    + apply (IH1 eq_refl) in H. destruct H as (s1 & c1 & H & Hlen).
      apply run_suffix in H. destruct H as (s2 & c2 & H & Hlen2).
      exists s2, c2. split; [assumption|lia].
    + cbn [orb] in Hc. apply run_suffix in H.
      destruct H as (s1 & c1 & H & Hlen).
      apply (IH2 Hc) in H. destruct H as (s2 & c2 & H & Hlen2).
      exists s2, c2. split; [assumption|lia].
  - apply andb_true_iff in Hc. destruct Hc as [Hc1 Hc2].
    destruct (run r1 s c k) eqn:E.
    + intros [= <-]. now apply (IH1 Hc1) in E.
    + now apply IH2.
  - intros H. apply (IH1 Hc) in H. destruct H as (s1 & c1 & H & Hlen).
    eexists _, _. split; [exact H|assumption].
Qed.

Lemma match_at_shorter r s rest c :
  consumes r = true -> match_at r s = Some (rest, c) -> length rest < length s.
Proof.
  intros Hc H. apply (run_consumes r Hc) in H.
  destruct H as (s' & c' & [= -> ->] & Hlen). exact Hlen.
Qed.

Lemma search_shorter r : consumes r = true ->
  forall s pre c rest, search r s = Some (pre, c, rest) ->
    length rest < length s.
Proof.
  intros Hc s. induction s as [|x s IH]; intros pre c rest; cbn [search].
  - destruct (match_at r []) as [[rest' c']|] eqn:E; [|discriminate].
    intros [= <- <- <-]. exact (match_at_shorter _ _ _ _ Hc E).
  - destruct (match_at r (x :: s)) as [[rest' c']|] eqn:E.
    + intros [= <- <- <-]. exact (match_at_shorter _ _ _ _ Hc E).
    + destruct (search r s) as [[[pre' c'] rest']|] eqn:Es; [|discriminate].
      intros [= <- <- <-]. specialize (IH _ _ _ eq_refl). cbn [length]. lia.
Qed.

(** With enough fuel the scan does not depend on it. *)
Lemma finditer_fuel r : consumes r = true ->
  forall f1 f2 s, length s < f1 -> length s < f2 ->
    finditer f1 r s = finditer f2 r s.
Proof.
  intros Hc f1. induction f1 as [|f1 IH]; intros f2 s H1 H2; [lia|].
  destruct f2 as [|f2]; [lia|]. cbn [finditer].
  destruct (search r s) as [[[pre c] rest]|] eqn:E; [|reflexivity].
  apply (search_shorter r Hc) in E.
  rewrite (IH f2 rest) by lia. reflexivity.
Qed.

Lemma matches_step r s pre c rest :
  consumes r = true -> search r s = Some (pre, c, rest) ->
  matches r s = ((pre, c) :: fst (matches r rest), snd (matches r rest)).
Proof.
  intros Hc E. pose proof (search_shorter r Hc _ _ _ _ E) as Hlen.
  remember (matches r rest) as M eqn:HM.
  unfold matches. cbn [finditer]. rewrite E.
  rewrite (finditer_fuel r Hc (length s) (S (length rest)) rest) by lia.
  fold (matches r rest). rewrite <- HM. now destruct M.
Qed.

Lemma matches_none r s : search r s = None -> matches r s = ([], s).
Proof. intros E. unfold matches. cbn [finditer]. now rewrite E. Qed.

(** *** Groups do not change what is matched *)

Lemma same_rest_sym o o' : same_rest o o' -> same_rest o' o.
Proof. destruct o as [[a ?]|], o' as [[b ?]|]; cbn; auto. Qed.

Lemma same_rest_trans o1 o2 o3 :
  same_rest o1 o2 -> same_rest o2 o3 -> same_rest o1 o3.
Proof.
  destruct o1 as [[a ?]|], o2 as [[b ?]|], o3 as [[d ?]|]; cbn;
    try tauto; congruence.
Qed.

Lemma repeat_loop_same body body' greedy :
  same_matcher body body' ->
  forall fuel, same_matcher (repeat_loop body greedy fuel)
                            (repeat_loop body' greedy fuel).
Proof.
  intros Hb fuel. induction fuel as [|f IH]; intros s c c' k k' Hk;
    cbn [repeat_loop]; [apply Hk|].
  assert (Hmore : same_rest
            (body s c (fun s' c' =>
               if length s' <? length s
               then repeat_loop body greedy f s' c' k else None))
            (body' s c' (fun s' c' =>
               if length s' <? length s
               then repeat_loop body' greedy f s' c' k' else None))).
  { apply Hb. intros s1 c1 c1'. destruct (length s1 <? length s); [|exact I].
    now apply IH. }
  pose proof (Hk s c c') as Hstop.
  destruct greedy.
  - destruct (body s c _) as [[a ?]|], (body' s c' _) as [[b ?]|];
      cbn in Hmore; try tauto.
  - destruct (k s c) as [[a ?]|], (k' s c') as [[b ?]|];
      cbn in Hstop; try tauto.
Qed.

Lemma run_erase r : same_matcher (run r) (run (erase r)).
Proof.
  induction r as [a|p| |r1 IH1 r2 IH2|r1 IH1 r2 IH2|g r1 IH1|n r1 IH1| ];
    intros s c c' k k' Hk; cbn [run erase].
  - destruct s as [|x s]; [exact I|]. destruct (Ascii.eqb x a); [apply Hk|exact I].
  - destruct s as [|x s]; [exact I|]. destruct (p x); [apply Hk|exact I].
  - apply Hk.
  - apply IH1. intros s1 c1 c1'. now apply IH2.
  - pose proof (IH1 s c c' k k' Hk) as H1.
    destruct (run r1 s c k) as [[a ?]|], (run (erase r1) s c' k') as [[b ?]|];
      cbn in H1; try tauto.
    now apply IH2.
  - now apply repeat_loop_same.
  - apply IH1. intros s1 c1 c1'. apply Hk.
  - destruct (at_end s); [apply Hk|exact I].
Qed.

Lemma erase_same_language r r' : erase r = erase r' -> same_language r r'.
Proof.
  intros E s. unfold match_at.
  apply same_rest_trans with
    (run (erase r) s [] (fun s' c' => Some (s', c'))).
  - apply run_erase. intros s1 c1 c1'. reflexivity.
  - rewrite E. apply same_rest_sym, run_erase. intros s1 c1 c1'. reflexivity.
Qed.

Section SameLanguage.

Variables r r' : regex.
Hypothesis Hsame : same_language r r'.

Lemma search_same s :
  match search r s, search r' s with
  | Some (pre, _, rest), Some (pre', _, rest') => pre = pre' /\ rest = rest'
  | None, None => True
  | _, _ => False
  end.
Proof.
  induction s as [|x s IH]; cbn [search]; pose proof (Hsame []) as H0.
  - destruct (match_at r []) as [[a ?]|], (match_at r' []) as [[b ?]|];
      cbn in H0; tauto.
  - pose proof (Hsame (x :: s)) as H1.
    destruct (match_at r (x :: s)) as [[a ?]|],
             (match_at r' (x :: s)) as [[b ?]|]; cbn in H1; try tauto.
    destruct (search r s) as [[[pre ?] rest]|],
             (search r' s) as [[[pre' ?] rest']|]; try tauto.
    destruct IH as [-> ->]. auto.
Qed.

Lemma finditer_same fuel : forall s,
  map fst (fst (finditer fuel r s)) = map fst (fst (finditer fuel r' s))
  /\ snd (finditer fuel r s) = snd (finditer fuel r' s).
Proof.
  induction fuel as [|f IH]; intros s; cbn [finditer]; [auto|].
  pose proof (search_same s) as H.
  destruct (search r s) as [[[pre ?] rest]|],
           (search r' s) as [[[pre' ?] rest']|]; try tauto.
  destruct H as [-> ->]. specialize (IH rest').
  destruct (finditer f r rest'), (finditer f r' rest').
  cbn [fst snd map] in *. destruct IH as [-> ->]. auto.
Qed.

Lemma matches_same_length s :
  length (fst (matches r s)) = length (fst (matches r' s)).
Proof.
  unfold matches.
  destruct (finditer_same (S (length s)) s) as [H _].
  apply (f_equal (@length _)) in H. now rewrite !length_map in H.
Qed.

End SameLanguage.

Lemma code_split_same_language : same_language split_pattern code_pattern.
Proof. apply erase_same_language. reflexivity. Qed.

(** ** The shape of the result of [format_message] *)

Lemma odds_shift n : forall i, odds (S (S i)) n = odds i n.
Proof.
  induction n as [|n IH]; intros i; cbn [odds]; [reflexivity|].
  rewrite IH. reflexivity.
Qed.

Lemma evens_shift n : forall i, evens (S (S i)) n = evens i n.
Proof.
  induction n as [|n IH]; intros i; cbn [evens]; [reflexivity|].
  rewrite IH. reflexivity.
Qed.

Lemma odds_pairs k : odds 0 (2 * k + 1) = k.
Proof.
  induction k as [|k IH]; [reflexivity|].
  replace (2 * S k + 1) with (S (S (2 * k + 1))) by lia.
  cbn [odds Nat.even Nat.add]. rewrite odds_shift, IH. reflexivity.
Qed.

Lemma evens_pairs k : evens 0 (2 * k + 1) = S k.
Proof.
  induction k as [|k IH]; [reflexivity|].
  replace (2 * S k + 1) with (S (S (2 * k + 1))) by lia.
  cbn [evens Nat.even Nat.add]. rewrite evens_shift, IH. reflexivity.
Qed.

Lemma re_split1_length r s :
  length (re_split1 r s) = 2 * length (fst (matches r s)) + 1.
Proof.
  unfold re_split1. destruct (matches r s) as [hs tail]. cbn [fst].
  rewrite length_app. cbn [length].
  induction hs as [|h hs IH]; cbn [map concat length app]; lia.
Qed.

Lemma findall2_length r s : length (findall2 r s) = length (fst (matches r s)).
Proof. unfold findall2. apply length_map. Qed.

Lemma parts_count message :
  length (re_split1 split_pattern message)
  = 2 * length (findall2 code_pattern message) + 1.
Proof.
  rewrite re_split1_length, findall2_length.
  now rewrite (matches_same_length _ _ code_split_same_language).
Qed.

(** Every fence found by [findall] gives one snippet, in order. *)
Lemma snippets_of_findall message :
  snippets_of message = map snippet_of (findall2 code_pattern message).
Proof.
  unfold snippets_of, format_message. cbn [fst snd].
  rewrite parts_loop_snippets, parts_count, odds_pairs.
  cbn [code_snippets code_index skipn app].
  now rewrite firstn_all.
Qed.

(** The frames built from the table matches are appended once for every
    even index of [parts], that is once more than there are fences. *)
Lemma tables_of_repeat message :
  tables_of message
  = concat (repeat (tables_loop (findall2 (df_pattern false) message) [])
                   (S (length (findall2 code_pattern message)))).
Proof.
  unfold tables_of, format_message. cbn [fst snd].
  rewrite parts_loop_dataframes, parts_count, evens_pairs.
  reflexivity.
Qed.

(** ** Tables *)

Lemma rows_loop_In hs lines : forall idx data row,
  In row (rows_loop hs idx lines data) ->
  In row data \/ exists line, In line lines /\ row = cells line.
Proof.
  induction lines as [|l lines IH]; intros idx data row; cbn [rows_loop].
  - auto.
  - assert (Hrest : forall d, In row (rows_loop hs (S idx) lines d) ->
              In row d \/ exists line, In line (l :: lines) /\ row = cells line).
    { intros d H. apply IH in H. destruct H as [H|(line & Hl & Hr)]; [auto|].
      right. exists line. split; [now right|assumption]. }
    destruct ((idx =? 0) && forallb (startswith (lit ":")) (cells l));
      [apply Hrest|].
    destruct (length (cells l) =? length hs); [|apply Hrest].
    intros H. apply Hrest in H. destruct H as [H|H]; [|auto].
    apply in_app_or in H. destruct H as [H|[<-|[]]]; [auto|].
    right. exists l. split; [now left|reflexivity].
Qed.

Lemma In_concat_repeat {A} (x : A) (l : list A) n :
  In x (concat (repeat l n)) -> In x l.
Proof.
  induction n as [|n IH]; cbn [repeat concat]; [intros []|].
  intros H. apply in_app_or in H. tauto.
Qed.

(** C6: in every table that [format_message] returns, each row has as many
    cells as there are headers: a row is the full list of non-empty trimmed
    cells of one candidate line, kept only when that count equals the header
    count, and a table none of whose candidate rows is kept is not returned
    (its rows are never empty). *)
Theorem C6_rows_match_headers (message : str) (tb : TableBlock) :
  In tb (tables_of message) ->
  rows tb <> []
  /\ (forall row, In row (rows tb) -> length row = length (headers tb))
  /\ exists header rws,
       In (header, rws) (findall2 (df_pattern false) message)
       /\ headers tb = cells header
       /\ forall row, In row (rows tb) ->
            exists line, In line (split LF (strip rws)) /\ row = cells line.
Proof.
  intros H. rewrite tables_of_repeat in H. apply In_concat_repeat in H.
  apply tables_loop_In in H. destruct H as ([header rws] & Hm & Ht).
  destruct (table_of_match_sound _ _ Ht) as [Hne Hlen].
  split; [exact Hne|]. split; [exact Hlen|].
  exists header, rws. split; [exact Hm|].
  unfold table_of_match in Ht.
  destruct (rows_loop (cells header) 0 (split LF (strip rws)) []) eqn:E;
    [discriminate|].
  injection Ht as <-. cbn [rows headers]. split; [reflexivity|].
  intros row Hrow. rewrite <- E in Hrow. apply rows_loop_In in Hrow.
  destruct Hrow as [[]|Hrow]. exact Hrow.
Qed.

Lemma C6_rows_match_headers_witness :
  In (DataFrame [[lit "1"; lit "2"]] [lit "A"; lit "B"])
     (tables_of (unlines ["| A | B |"; "|---|---|"; "| 1 | 2 |"; "| 3 |"]))
  /\ rows (DataFrame [[lit "1"; lit "2"]] [lit "A"; lit "B"]) <> []
  /\ (forall row,
        In row (rows (DataFrame [[lit "1"; lit "2"]] [lit "A"; lit "B"])) ->
        length row
        = length (headers (DataFrame [[lit "1"; lit "2"]] [lit "A"; lit "B"]))).
Proof.
  assert (H : In (DataFrame [[lit "1"; lit "2"]] [lit "A"; lit "B"])
                (tables_of (unlines ["| A | B |"; "|---|---|"; "| 1 | 2 |";
                                     "| 3 |"])))
    by (vm_compute; left; reflexivity).
  destruct (C6_rows_match_headers _ _ H) as (Hne & Hlen & _).
  split; [exact H|]. split; [exact Hne|exact Hlen].
Defined.

(** C10: when every non-empty cell of the first candidate row of a table
    match starts with a colon (also when the cells carry text after the
    colon, and also when the row has no non-empty cell at all), that row is
    skipped: the table is built from the remaining candidate lines alone. *)
Theorem C10_first_colon_row_skipped (header rws line : str) (lines : list str) :
  split LF (strip rws) = line :: lines ->
  forallb (startswith (lit ":")) (cells line) = true ->
  table_of_match (header, rws)
  = match rows_loop (cells header) 1 lines [] with
    | [] => None
    | data => Some (DataFrame data (cells header))
    end.
Proof.
  intros Hsplit Hcolon. unfold table_of_match. rewrite Hsplit.
  cbn [rows_loop]. rewrite Hcolon. cbn [Nat.eqb andb].
  now destruct (rows_loop (cells header) 1 lines []).
Qed.

Lemma C10_first_colon_row_skipped_witness :
  table_of_match (lit "A | B", unlines ["|:alpha|:beta|"; "| 1 | 2 |"])
  = Some (DataFrame [[lit "1"; lit "2"]] [lit "A"; lit "B"])
  /\ table_of_match (lit "A", unlines ["| |"; "| 1 |"])
     = Some (DataFrame [[lit "1"]] [lit "A"]).
Proof.
  split.
  - exact (C10_first_colon_row_skipped (lit "A | B")
             (unlines ["|:alpha|:beta|"; "| 1 | 2 |"])
             (lit "|:alpha|:beta|") [lit "| 1 | 2 |"] eq_refl eq_refl).
  - exact (C10_first_colon_row_skipped (lit "A")
             (unlines ["| |"; "| 1 |"]) (lit "| |") [lit "| 1 |"]
             eq_refl eq_refl).
Defined.

Lemma lower_char_code c :
  code (lower_char c) = if is_upper c then (code c + 32)%N else code c.
Proof. destruct c as [[] [] [] [] [] [] [] []]; reflexivity. Qed.

Lemma lower_lowercase_form token : lowercase_form token (lower token).
Proof.
  induction token as [|c token IH]; constructor; [|exact IH].
  apply lower_char_code.
Qed.

Lemma Forall2_map_right {A B} (R : A -> B -> Prop) (f : A -> B) (l : list A) :
  (forall x, R x (f x)) -> Forall2 R l (map f l).
Proof. intros H. induction l; constructor; auto. Qed.

(** C7: fence by fence, the language of the snippet is the lower-case form
    of the language token of the fence (each capital letter replaced by its
    small letter, every other character kept), and ["plaintext"] when the
    fence has no token. *)
Theorem C7_snippet_language (message : str) :
  Forall2 (fun code_block snippet =>
             match fst code_block with
             | [] => snd snippet = lit "plaintext"
             | token => lowercase_form token (snd snippet)
             end)
          (findall2 code_pattern message) (snippets_of message).
Proof.
  rewrite snippets_of_findall. apply Forall2_map_right.
  intros [[|c token] code]; cbn [snippet_of fst snd truthy]; [reflexivity|].
  apply lower_lowercase_form.
Qed.

Lemma C7_snippet_language_witness :
  let message :=
    unlines ["```SQL"; "SELECT 1"; "``` then ```"; "ls"; "``` and ```PyThon3";
             "x = 1```"] in
  snippets_of message
  = [(lit "SELECT 1", lit "sql"); (lit "ls", lit "plaintext");
     (lit "x = 1", lit "python3")]
  /\ Forall2 (fun code_block snippet =>
                match fst code_block with
                | [] => snd snippet = lit "plaintext"
                | token => lowercase_form token (snd snippet)
                end)
             [(lit "SQL", unlines ["SELECT 1"; ""]); ([], unlines ["ls"; ""]);
              (lit "PyThon3", lit "x = 1")]
             [(lit "SELECT 1", lit "sql"); (lit "ls", lit "plaintext");
              (lit "x = 1", lit "python3")].
Proof.
  intros message.
  assert (E1 : findall2 code_pattern message
               = [(lit "SQL", unlines ["SELECT 1"; ""]);
                  ([], unlines ["ls"; ""]); (lit "PyThon3", lit "x = 1")])
    by (vm_compute; reflexivity).
  assert (E2 : snippets_of message
               = [(lit "SELECT 1", lit "sql"); (lit "ls", lit "plaintext");
                  (lit "x = 1", lit "python3")])
    by (vm_compute; reflexivity).
  split; [exact E2|]. rewrite <- E1, <- E2. exact (C7_snippet_language message).
Defined.

(** C1: with one fence in the message the loop runs its table branch for
    the text before and for the text after the fence, and each run appends
    the frame of the one table of the message: the table is returned
    twice. *)
Theorem C1_table_repeated_per_text_part :
  tables_of (unlines ["| A | B |"; "|---|---|"; "| 1 | 2 |"; "```"; "x"; "```"])
  = [DataFrame [[lit "1"; lit "2"]] [lit "A"; lit "B"];
     DataFrame [[lit "1"; lit "2"]] [lit "A"; lit "B"]].
Proof. vm_compute. reflexivity. Qed.

(** C2: a separator row that mixes plain and colon cells, first after the
    header, is neither consumed by the pattern nor skipped by the loop: it is
    returned as a data row. *)
Theorem C2_mixed_separator_row_kept :
  tables_of (unlines ["| A | B |"; "|---|:---|"; "| 1 | 2 |"])
  = [DataFrame [[lit "---"; lit ":---"]; [lit "1"; lit "2"]]
               [lit "A"; lit "B"]].
Proof. vm_compute. reflexivity. Qed.

Lemma split_cons sep s : exists l ls, split sep s = l :: ls.
Proof.
  induction s as [|x s IH]; cbn [split]; [eauto|].
  destruct (Ascii.eqb x sep); [eauto|].
  destruct (split sep s); eauto.
Qed.

(** Without headers the first line never gives a row, and a later line gives
    one exactly when it has no cell. *)
Lemma rows_loop_no_headers_later lines : forall i data,
  rows_loop [] (S i) lines data
  = data ++ map cells (filter (fun l => length (cells l) =? 0) lines).
Proof.
  induction lines as [|l lines IH]; intros i data;
    cbn [rows_loop filter map length].
  - now rewrite app_nil_r.
  - change (S i =? 0) with false. cbn [andb].
    destruct (length (cells l) =? 0); rewrite IH; [|reflexivity].
    cbn [map]. now rewrite <- app_assoc.
Qed.

Lemma rows_loop_no_headers_first l lines :
  rows_loop [] 0 (l :: lines) [] = rows_loop [] 1 lines [].
Proof.
  cbn [rows_loop Nat.eqb andb length].
  destruct (cells l) as [|c cs]; [reflexivity|].
  now destruct (forallb (startswith (lit ":")) (c :: cs)).
Qed.

(** C3 (as stated) fails: a header line without any non-empty cell, followed
    by a later candidate row without any non-empty cell, gives a table
    without headers whose one row is empty. *)
Lemma C3_table_without_headers_returned :
  tables_of (unlines ["||"; "|a|"; "||"]) = [DataFrame [[]] []].
Proof. vm_compute. reflexivity. Qed.

(** C3 (as amended): a table match whose header line has no non-empty
    trimmed cell is discarded exactly when each of its candidate rows after
    the first has a non-empty cell (so always when it has at most one
    candidate row). *)
Theorem C3_table_without_headers (header rws : str) :
  cells header = [] ->
  table_of_match (header, rws) = None
  <-> forall line, In line (tl (split LF (strip rws))) -> cells line <> [].
Proof.
  intros Hheader. unfold table_of_match. rewrite Hheader.
  destruct (split_cons LF (strip rws)) as (l & lines & ->). cbn [tl].
  rewrite rows_loop_no_headers_first, rows_loop_no_headers_later. cbn [app].
  split.
  - intros H line Hline Hcells.
    assert (Hin : In line (filter (fun l => length (cells l) =? 0) lines))
      by (apply filter_In; split; [exact Hline|now rewrite Hcells]).
    apply (in_map cells) in Hin.
    now destruct (map cells (filter (fun l => length (cells l) =? 0) lines)).
  - intros H.
    destruct (filter (fun l => length (cells l) =? 0) lines) as [|x xs] eqn:E;
      [reflexivity|].
    assert (Hx : In x (filter (fun l => length (cells l) =? 0) lines))
      by (rewrite E; now left).
    apply filter_In in Hx. destruct Hx as [Hx Hlen].
    apply Nat.eqb_eq, length_zero_iff_nil in Hlen. now apply H in Hx.
Qed.

Lemma C3_table_without_headers_witness :
  table_of_match (lit "", unlines ["|a|"; "| b | c |"]) = None.
Proof.
  apply (C3_table_without_headers (lit "") (unlines ["|a|"; "| b | c |"]) eq_refl).
  vm_compute. intros line [<-|[]]. discriminate.
Defined.

(** ** Timestamps *)

Local Open Scope Z_scope.

Ltac label_cases :=
  repeat match goal with
  | |- context [if ?a =? ?b then _ else _] =>
      destruct (Z.eqb_spec a b); cbn [andb with_date]
  | |- context [if ?a <=? ?b then _ else _] =>
      destruct (Z.leb_spec a b); cbn [andb with_date]
  | |- context [if (?a <=? ?b) && _ then _ else _] =>
      destruct (Z.leb_spec a b); cbn [andb with_date]
  | |- context [if ?a <? ?b then _ else _] =>
      destruct (Z.ltb_spec a b); cbn [andb with_date]
  end; try reflexivity; try lia.

(** The label as a function of how many days before [today] the date of
    the timestamp lies. *)
Lemma label_of_days_ago (today : date) (t : datetime) :
  30 < today ->
  label_of today t
  = let n := today - date_of t in
    Return (if n =? 0 then lit "Today"
            else if n =? 1 then lit "Yesterday"
            else if (2 <=? n) && (n <=? 7) then lit "Previous 7 days"
            else if (8 <=? n) && (n <=? 30) then lit "Previous 30 days"
            else strftime_ymd t).
Proof.
  intros Htoday. unfold label_of, minus_days. cbv zeta.
  generalize (date_of t) as d. intros d. label_cases.
Qed.

(** C5: the first of January 999 parses and lies more than thirty days
    before the 10th of March 2024, yet its label is not its date written as
    YYYY-MM-DD: the year comes without its leading zero. *)
Theorem C5_year_below_1000_not_padded :
  parse_timestamp (Str (lit "0999-01-01")) = Some (mk_datetime 999 1 1 0 0 0)
  /\ date_of (mk_datetime 999 1 1 0 0 0) < 738955 - 30
  /\ format_timestamp_label 738955 (Str (lit "0999-01-01"))
     = Return (lit "999-01-01").
Proof. vm_compute. repeat split; reflexivity. Qed.

(** The ordinal of the 10th of March 2024, as [date.toordinal] gives it. *)
Example ordinal_of_a_date : date_of (mk_datetime 2024 3 10 0 0 0) = 738955.
Proof. reflexivity. Qed.

(** The boundaries named in the documentation, for the 10th of March 2024
    as today. *)
Example labels_at_the_boundaries :
  map (fun s => format_timestamp_label 738955 (Str (lit s)))
      ["2024-03-10 23:59:59"; "2024-03-09 00:00:00"; "2024-03-08";
       "2024-03-03"; "2024-03-02"; "2024-02-09"; "2024-02-08"; "2024-03-11"]
  = map (fun s => Return (lit s))
      ["Today"; "Yesterday"; "Previous 7 days"; "Previous 7 days";
       "Previous 30 days"; "Previous 30 days"; "2024-02-08"; "2024-03-11"].
Proof. vm_compute. reflexivity. Qed.

(** C8: a string that parses under neither format, and a value that is
    neither a string nor a [datetime], get the label ["Invalid timestamp"];
    the call returns, whatever the current date. *)
Theorem C8_invalid_timestamp (today : date) (timestamp : value) :
  match timestamp with
  | Str s => strptime s datetime_format = None /\ strptime s date_format = None
  | Datetime _ => False
  | Other => True
  end ->
  format_timestamp_label today timestamp = Return (lit "Invalid timestamp").
Proof.
  unfold format_timestamp_label, parse_timestamp.
  destruct timestamp as [s|t|].
  - intros [-> ->]. reflexivity.
  - intros [].
  - reflexivity.
Qed.

Lemma C8_invalid_timestamp_witness :
  format_timestamp_label 1 (Str (lit "not-a-date"))
  = Return (lit "Invalid timestamp")
  /\ format_timestamp_label 1 (Str (lit "2023-02-30 10:00:00"))
     = Return (lit "Invalid timestamp")
  /\ format_timestamp_label 1 Other = Return (lit "Invalid timestamp").
Proof.
  split; [|split].
  - apply (C8_invalid_timestamp 1 (Str (lit "not-a-date"))).
    vm_compute. split; reflexivity.
  - apply (C8_invalid_timestamp 1 (Str (lit "2023-02-30 10:00:00"))).
    vm_compute. split; reflexivity.
  - apply (C8_invalid_timestamp 1 Other). exact I.
Defined.

Local Close Scope Z_scope.

(** ** Prose *)

Lemma lstrip_In c s : In c (lstrip s) -> In c s.
Proof.
  induction s as [|x s IH]; cbn [lstrip]; [auto|].
  destruct (isspace x); [|auto]. intros H. right. auto.
Qed.

Lemma strip_In c s : In c (strip s) -> In c s.
Proof.
  unfold strip, rstrip. intros H.
  apply (proj2 (in_rev _ _)), lstrip_In, (proj2 (in_rev _ _)) in H.
  now apply lstrip_In.
Qed.

Lemma lstrip_head s :
  match lstrip s with [] => True | c :: _ => isspace c = false end.
Proof.
  induction s as [|x s IH]; cbn [lstrip]; [exact I|].
  destruct (isspace x) eqn:E; assumption.
Qed.

Lemma lstrip_idem s : lstrip (lstrip s) = lstrip s.
Proof.
  pose proof (lstrip_head s) as H. destruct (lstrip s) as [|c t]; [reflexivity|].
  cbn [lstrip]. now rewrite H.
Qed.

Lemma rstrip_idem s : rstrip (rstrip s) = rstrip s.
Proof. unfold rstrip. now rewrite rev_involutive, lstrip_idem. Qed.

Lemma lstrip_snoc l c : isspace c = false -> lstrip (l ++ [c]) = lstrip l ++ [c].
Proof.
  intros Hc. induction l as [|x l IH]; cbn [lstrip app].
  - now rewrite Hc.
  - destruct (isspace x); [exact IH|reflexivity].
Qed.

Lemma rstrip_cons c t : isspace c = false -> rstrip (c :: t) = c :: rstrip t.
Proof.
  intros Hc. unfold rstrip. cbn [rev].
  rewrite (lstrip_snoc _ _ Hc), rev_app_distr. reflexivity.
Qed.

Lemma strip_idem s : strip (strip s) = strip s.
Proof.
  unfold strip. pose proof (lstrip_head s) as H.
  destruct (lstrip s) as [|c t]; [reflexivity|].
  rewrite (rstrip_cons _ _ H). cbn [lstrip]. rewrite H.
  rewrite (rstrip_cons _ _ H), rstrip_idem. reflexivity.
Qed.

Lemma has_fence_skipn s : has_fence s = false ->
  forall n, startswith (lit "```") (skipn n s) = false.
Proof.
  induction s as [|x s IH]; intros H n.
  - now destruct n.
  - cbn [has_fence] in H. apply orb_false_iff in H. destruct H as [H0 H].
    destruct n as [|n]; [exact H0|]. cbn [skipn]. now apply IH.
Qed.

Lemma search_None r s :
  (forall n, match_at r (skipn n s) = None) -> search r s = None.
Proof.
  induction s as [|x s IH]; intros H; cbn [search]; pose proof (H 0) as H0;
    cbn [skipn] in H0; rewrite H0; [reflexivity|].
  rewrite IH; [reflexivity|]. intros n. apply (H (S n)).
Qed.

Lemma eqb_backtick x : Ascii.eqb x "`" = Ascii.eqb "`" x.
Proof. apply Ascii.eqb_sym. Qed.

(** Both fence patterns start with three backticks. *)
Lemma run_fence_prefix r s c k :
  run (Cat (Word "```") r) s c k
  = if startswith (lit "```") s then run r (skipn 3 s) c k else None.
Proof.
  cbn [run Word Cats lit list_ascii_of_string map].
  destruct s as [|x1 [|x2 [|x3 s]]]; cbn [run startswith skipn andb];
    rewrite ?eqb_backtick;
    repeat match goal with
           | |- context [Ascii.eqb "`" ?x] => destruct (Ascii.eqb "`" x)
           end; reflexivity.
Qed.

Lemma no_fence_no_match r s :
  has_fence s = false -> search (Cat (Word "```") r) s = None.
Proof.
  intros H. apply search_None. intros n. unfold match_at.
  now rewrite run_fence_prefix, (has_fence_skipn _ H).
Qed.

Lemma no_fence_no_code s : has_fence s = false -> search code_pattern s = None.
Proof. apply no_fence_no_match. Qed.

Lemma no_fence_no_split s : has_fence s = false -> search split_pattern s = None.
Proof. apply no_fence_no_match. Qed.

Lemma skipn_In {A} (x : A) l n : In x (skipn n l) -> In x l.
Proof.
  revert l. induction n as [|n IH]; intros [|a l]; cbn [skipn]; auto.
  intros H. right. now apply IH.
Qed.

Lemma no_pipe_no_match dotall s :
  ~ In "|"%char s -> search (df_pattern dotall) s = None.
Proof.
  intros H. apply search_None. intros n. unfold match_at, df_pattern.
  cbn [Cats run]. destruct (skipn n s) as [|x t] eqn:E; [reflexivity|].
  destruct (Ascii.eqb_spec x "|"); [|reflexivity].
  exfalso. apply H, (skipn_In _ _ n). rewrite E. now left.
Qed.

(** C9: a message without three backticks in a row and without a pipe has no
    code snippet and no table, and its text is the trimmed message inside the
    HTML wrapper (nothing at all when the trimmed message is empty).  The
    function is total: it returns for every text. *)
Theorem C9_prose_only (message : str) :
  has_fence message = false ->
  ~ In "|"%char message ->
  format_message message
  = (match strip message with
     | [] => []
     | text => wrap_html text
     end, [], []).
Proof.
  intros Hfence Hpipe. unfold format_message, findall2, re_split1.
  rewrite (matches_none _ _ (no_fence_no_code _ Hfence)).
  rewrite (matches_none _ _ (no_pipe_no_match false _ Hpipe)).
  rewrite (matches_none _ _ (no_fence_no_split _ Hfence)).
  cbn [fst snd map concat app parts_loop Nat.even text_branch tables_loop
       formatted_html code_snippets dataframes].
  unfold re_sub_empty.
  assert (Hp : ~ In "|"%char (strip message))
    by (intros H; apply Hpipe, strip_In, H).
  rewrite (matches_none _ _ (no_pipe_no_match true _ Hp)).
  cbn [map concat app]. rewrite strip_idem.
  now destruct (strip message).
Qed.

(** ** Fences *)

Lemma run_Word_fence s c k :
  run (Word "```") s c k
  = if startswith (lit "```") s then k (skipn 3 s) c else None.
Proof.
  cbn [run Word Cats lit list_ascii_of_string map].
  destruct s as [|x1 [|x2 [|x3 s]]]; cbn [run startswith skipn andb];
    rewrite ?eqb_backtick;
    repeat match goal with
           | |- context [Ascii.eqb "`" ?x] => destruct (Ascii.eqb "`" x)
           end; reflexivity.
Qed.

Lemma run_Class_cons p x s c k :
  run (Class p) (x :: s) c k = if p x then k s c else None.
Proof. reflexivity. Qed.

Lemma run_Class_nil p c k : run (Class p) [] c k = None.
Proof. reflexivity. Qed.

Lemma run_dot_cons x s c k : run (dot true) (x :: s) c k = k s c.
Proof. reflexivity. Qed.

(** A greedy repetition of a character class takes the whole run of
    characters of the class when what follows then matches. *)
Lemma repeat_greedy_class p l : forall fuel s c k res,
  length l <= fuel ->
  forallb p l = true ->
  match s with [] => True | x :: _ => p x = false end ->
  k s c = Some res ->
  repeat_loop (run (Class p)) true fuel (l ++ s) c k = Some res.
Proof.
  induction l as [|x l IH]; intros fuel s c k res Hfuel Hl Hs Hk.
  - cbn [app]. destruct fuel as [|f]; cbn [repeat_loop]; [exact Hk|].
    destruct s as [|y s]; [now rewrite run_Class_nil|].
    now rewrite run_Class_cons, Hs.
  - destruct fuel as [|f]; [cbn [length] in Hfuel; lia|].
    cbn [forallb] in Hl. apply andb_true_iff in Hl. destruct Hl as [Hx Hl].
    cbn [repeat_loop app]. rewrite run_Class_cons, Hx.
    replace (length (l ++ s) <? length (x :: l ++ s)) with true
      by (symmetry; apply Nat.ltb_lt; cbn [length]; lia).
    rewrite (IH f s c k res); [reflexivity| |assumption..].
    cbn [length] in Hfuel. lia.
Qed.

(** A lazy repetition of [.] stops at the first place where what follows
    matches. *)
Lemma repeat_lazy_dot l : forall fuel s c k res,
  length l <= fuel ->
  (forall n, n < length l -> k (skipn n (l ++ s)) c = None) ->
  k s c = Some res ->
  repeat_loop (run (dot true)) false fuel (l ++ s) c k = Some res.
Proof.
  induction l as [|x l IH]; intros fuel s c k res Hfuel Hl Hk.
  - cbn [app]. destruct fuel as [|f]; cbn [repeat_loop]; now rewrite Hk.
  - destruct fuel as [|f]; [cbn [length] in Hfuel; lia|].
    cbn [repeat_loop app].
    pose proof (Hl 0 ltac:(cbn [length]; lia)) as H0. cbn [skipn app] in H0.
    rewrite H0, run_dot_cons.
    replace (length (l ++ s) <? length (x :: l ++ s)) with true
      by (symmetry; apply Nat.ltb_lt; cbn [length]; lia).
    apply IH; [cbn [length] in Hfuel; lia| |assumption].
    intros n Hn. apply (Hl (S n)). cbn [length]. lia.
Qed.

(** Inside [l], whether three backticks start at a place depends on [l] and
    the two characters after it only. *)
Lemma fence_window l t : l <> [] ->
  startswith (lit "```") (l ++ lit "```" ++ t)
  = startswith (lit "```") (l ++ lit "``").
Proof.
  destruct l as [|x1 [|x2 [|x3 l]]]; [congruence|reflexivity..].
Qed.

Lemma no_fence_before l t n :
  has_fence (l ++ lit "``") = false -> n < length l ->
  startswith (lit "```") (skipn n (l ++ lit "```" ++ t)) = false.
Proof.
  intros H Hn. rewrite skipn_app.
  replace (n - length l) with 0 by lia. cbn [skipn].
  rewrite fence_window.
  - pose proof (has_fence_skipn _ H n) as H'. rewrite skipn_app in H'.
    replace (n - length l) with 0 in H' by lia. exact H'.
  - intros E. apply (f_equal (@length _)) in E. rewrite length_skipn in E.
    cbn [length] in E. lia.
Qed.

Lemma firstn_app_exact {A} (l t : list A) :
  firstn (length (l ++ t) - length t) (l ++ t) = l.
Proof.
  rewrite length_app. replace (length l + length t - length t) with (length l)
    by lia. rewrite firstn_app, Nat.sub_diag, firstn_all. cbn [firstn].
  apply app_nil_r.
Qed.

(** From the line feed of the opening fence to the nearest three
    backticks. *)
Lemma run_fence_body body rest c :
  has_fence (body ++ lit "``") = false ->
  run (Cats [Lit LF; Group 2 (Repeat false (dot true)); Word "```"])
      (LF :: body ++ lit "```" ++ rest) c (fun s' c' => Some (s', c'))
  = Some (rest, (2, body) :: c).
Proof.
  intros Hbody. cbn [Cats run]. rewrite Ascii.eqb_refl.
  apply repeat_lazy_dot.
  - rewrite length_app. lia.
  - intros n Hn. rewrite run_Word_fence.
    now rewrite (no_fence_before _ _ _ Hbody Hn).
  - rewrite run_Word_fence. cbn [startswith lit list_ascii_of_string app].
    rewrite !Ascii.eqb_refl. cbn [andb skipn].
    change ("`"%char :: "`"%char :: "`"%char :: rest) with (lit "```" ++ rest).
    now rewrite firstn_app_exact.
Qed.

Lemma startswith_app p s : startswith p (p ++ s) = true.
Proof.
  induction p as [|a p IH]; cbn [startswith app]; [reflexivity|].
  now rewrite Ascii.eqb_refl, IH.
Qed.

Lemma run_Cat r1 r2 s c k :
  run (Cat r1 r2) s c k = run r1 s c (fun s1 c1 => run r2 s1 c1 k).
Proof. reflexivity. Qed.

Lemma run_Opt r s c k :
  run (Opt r) s c k
  = match run r s c k with
    | Some res => Some res
    | None => k s c
    end.
Proof. reflexivity. Qed.

Lemma run_Group n r s c k :
  run (Group n r) s c k
  = run r s c (fun s1 c1 => k s1 ((n, firstn (length s - length s1) s) :: c1)).
Proof. reflexivity. Qed.

Lemma run_Plus_Class p s c k :
  run (Plus (Class p)) s c k
  = match s with
    | [] => None
    | x :: s' =>
        if p x then repeat_loop (run (Class p)) true (length s') s' c k
        else None
    end.
Proof. now destruct s. Qed.

(** One attempt at an opening fence: three backticks, word characters, a
    line feed, and the text up to the nearest three backticks. *)
Lemma match_at_fence lang body rest :
  forallb isword lang = true ->
  has_fence (body ++ lit "``") = false ->
  match_at code_pattern (lit "```" ++ lang ++ LF :: body ++ lit "```" ++ rest)
  = Some (rest, (2, body) :: match lang with
                             | [] => []
                             | _ :: _ => [(1, lang)]
                             end).
Proof.
  intros Hlang Hbody. unfold match_at.
  change code_pattern with
    (Cat (Word "```")
       (Cat (Opt (Group 1 (Plus (Class isword))))
          (Cats [Lit LF; Group 2 (Repeat false (dot true)); Word "```"]))).
  rewrite run_fence_prefix, startswith_app.
  change (skipn 3 (lit "```" ++ ?t)) with t.
  rewrite run_Cat, run_Opt, run_Group, run_Plus_Class.
  destruct lang as [|x lang]; cbn [app].
  - change (isword LF) with false. cbv iota.
    now apply run_fence_body.
  - cbn [forallb] in Hlang. apply andb_true_iff in Hlang.
    destruct Hlang as [-> Hlang].
    rewrite (repeat_greedy_class isword lang _ (LF :: body ++ lit "```" ++ rest)
               [] _ (rest, [(2, body); (1, x :: lang)])); try easy.
    + rewrite length_app. lia.
    + change (x :: lang ++ LF :: body ++ lit "```" ++ rest)
        with ((x :: lang) ++ LF :: body ++ lit "```" ++ rest).
      rewrite firstn_app_exact. now apply run_fence_body.
Qed.

Lemma search_skip r pre : forall s c rest,
  (forall n, n < length pre -> match_at r (skipn n (pre ++ s)) = None) ->
  match_at r s = Some (rest, c) ->
  search r (pre ++ s) = Some (pre, c, rest).
Proof.
  induction pre as [|x pre IH]; intros s c rest Hpre Hs.
  - cbn [app]. destruct s; cbn [search]; now rewrite Hs.
  - cbn [app search].
    pose proof (Hpre 0 ltac:(cbn [length]; lia)) as H0. cbn [skipn app] in H0.
    rewrite H0, (IH s c rest); [reflexivity| |assumption].
    intros n Hn. apply (Hpre (S n)). cbn [length]. lia.
Qed.

Lemma findall2_first_fence pre lang body rest :
  has_fence (pre ++ lit "``") = false ->
  forallb isword lang = true ->
  has_fence (body ++ lit "``") = false ->
  findall2 code_pattern
    (pre ++ lit "```" ++ lang ++ LF :: body ++ lit "```" ++ rest)
  = (lang, body) :: findall2 code_pattern rest.
Proof.
  intros Hpre Hlang Hbody. unfold findall2.
  rewrite (matches_step code_pattern _ pre
             ((2, body) :: match lang with [] => [] | _ :: _ => [(1, lang)] end)
             rest eq_refl).
  - cbn [fst map snd]. f_equal. now destruct lang.
  - apply search_skip; [|now apply match_at_fence].
    intros n Hn. unfold match_at.
    change code_pattern with
      (Cat (Word "```")
         (Cat (Opt (Group 1 (Plus (Class isword))))
            (Cats [Lit LF; Group 2 (Repeat false (dot true)); Word "```"]))).
    rewrite run_fence_prefix.
    now rewrite (no_fence_before pre _ n Hpre Hn).
Qed.

(** *** Where no fence opens *)

Lemma repeat_lazy_dot_None fuel : forall s c k,
  (forall n, k (skipn n s) c = None) ->
  repeat_loop (run (dot true)) false fuel s c k = None.
Proof.
  induction fuel as [|f IH]; intros s c k H; cbn [repeat_loop];
    pose proof (H 0) as H0; cbn [skipn] in H0; rewrite H0; [reflexivity|].
  destruct s as [|x s]; [reflexivity|]. rewrite run_dot_cons.
  destruct (length s <? length (x :: s)); [|reflexivity].
  apply IH. intros n. exact (H (S n)).
Qed.

(** After the language token a line feed has to come, and three backticks
    somewhere after it. *)
Lemma run_fence_body_None u c k :
  match u with
  | x :: s' => Ascii.eqb x LF && has_fence s'
  | [] => false
  end = false ->
  run (Cats [Lit LF; Group 2 (Repeat false (dot true)); Word "```"]) u c k
  = None.
Proof.
  intros H. cbn [Cats]. rewrite run_Cat. destruct u as [|x s']; [reflexivity|].
  cbn [run]. destruct (Ascii.eqb x LF); [|reflexivity]. cbn [andb] in H.
  apply repeat_lazy_dot_None. intros n. rewrite run_Word_fence.
  now rewrite (has_fence_skipn _ H n).
Qed.

(** The greedy run over the word characters stops at each of them and
    after the last one; it fails when what follows fails at all these
    places. *)
Lemma greedy_word_None fuel : forall s c k,
  (forall x s', isword x = true -> k (x :: s') c = None) ->
  k (after_word s) c = None ->
  repeat_loop (run (Class isword)) true fuel s c k = None.
Proof.
  induction fuel as [|f IH]; intros s c k Hword Hafter; cbn [repeat_loop].
  - destruct s as [|x s]; [exact Hafter|]. cbn [after_word] in Hafter.
    destruct (isword x) eqn:Hx; [now apply Hword|exact Hafter].
  - destruct s as [|x s]; [rewrite run_Class_nil; exact Hafter|].
    rewrite run_Class_cons. cbn [after_word] in Hafter.
    destruct (isword x) eqn:Hx; [|exact Hafter].
    destruct (length s <? length (x :: s)).
    + rewrite (IH s c k Hword Hafter). now apply Hword.
    + now apply Hword.
Qed.

Lemma isword_not_LF x : isword x = true -> Ascii.eqb x LF = false.
Proof.
  destruct (Ascii.eqb_spec x LF) as [->|]; [discriminate|reflexivity].
Qed.

Lemma after_word_fixed s :
  match s with
  | x :: _ => isword x = false
  | [] => True
  end -> after_word s = s.
Proof. destruct s as [|x s]; [reflexivity|]. cbn [after_word]. now intros ->. Qed.

(** Where no fence opens, the pattern of the code blocks does not match. *)
Lemma match_at_no_opener s :
  opens_fence s = false -> match_at code_pattern s = None.
Proof.
  unfold opens_fence, match_at. intros H.
  change code_pattern with
    (Cat (Word "```")
       (Cat (Opt (Group 1 (Plus (Class isword))))
          (Cats [Lit LF; Group 2 (Repeat false (dot true)); Word "```"]))).
  rewrite run_fence_prefix.
  destruct (startswith (lit "```") s); [|reflexivity]. cbn [andb] in H.
  generalize dependent (skipn 3 s). intros t H.
  rewrite run_Cat, run_Opt, run_Group, run_Plus_Class.
  assert (Hbody : forall c, run (Cats [Lit LF; Group 2 (Repeat false (dot true));
                                       Word "```"]) (after_word t) c
                              (fun s' c' => Some (s', c')) = None)
    by (intros c; now apply run_fence_body_None).
  assert (Hword : forall x s' c, isword x = true ->
            run (Cats [Lit LF; Group 2 (Repeat false (dot true)); Word "```"])
                (x :: s') c (fun s' c' => Some (s', c')) = None).
  { intros x s' c Hx. apply run_fence_body_None.
    now rewrite (isword_not_LF x Hx). }
  destruct t as [|x t].
  - exact (Hbody []).
  - cbn [after_word] in Hbody. destruct (isword x) eqn:Hx.
    + rewrite greedy_word_None; [now apply Hword| |apply Hbody].
      intros y s' Hy. now apply Hword.
    + apply Hbody.
Qed.

(** *** The first region *)

Lemma startswith_split p : forall s,
  startswith p s = true -> s = p ++ skipn (length p) s.
Proof.
  induction p as [|a p IH]; intros [|b s]; cbn [startswith]; try discriminate;
    [reflexivity..|].
  intros H. apply andb_true_iff in H. destruct H as [Hab H].
  apply Ascii.eqb_eq in Hab. subst b. cbn [length skipn app]. f_equal.
  now apply IH.
Qed.

Lemma take_word_split s :
  s = take_word s ++ after_word s /\ forallb isword (take_word s) = true.
Proof.
  induction s as [|c s [IH1 IH2]]; [now split|].
  cbn [take_word after_word]. destruct (isword c) eqn:Hc; [|now split].
  cbn [app forallb]. rewrite Hc, IH2. split; [now rewrite <- IH1|reflexivity].
Qed.

Lemma before_fence_split s : has_fence s = true ->
  s = before_fence s ++ lit "```" ++ after_fence s
  /\ has_fence (before_fence s ++ lit "``") = false.
Proof.
  induction s as [|c s IH]; [discriminate|].
  intros H. cbn [has_fence] in H. cbn [before_fence after_fence].
  destruct (startswith (lit "```") (c :: s)) eqn:E.
  - split; [|reflexivity]. now apply (startswith_split (lit "```")).
  - cbn [orb] in H. destruct (IH H) as [IH1 IH2]. split.
    + cbn [app]. now rewrite <- IH1.
    + change ((c :: before_fence s) ++ lit "``")
        with (c :: before_fence s ++ lit "``").
      cbn [has_fence]. rewrite IH2, orb_false_r.
      pose proof (fence_window (c :: before_fence s) (after_fence s)
                    ltac:(discriminate)) as W.
      cbn [app] in W. rewrite <- W. now rewrite <- IH1.
Qed.

(** A text at whose start a fence opens, taken apart. *)
Lemma opens_fence_split s : opens_fence s = true ->
  let inside := skipn 1 (after_word (skipn 3 s)) in
  s = lit "```" ++ take_word (skipn 3 s) ++ LF :: before_fence inside
      ++ lit "```" ++ after_fence inside
  /\ forallb isword (take_word (skipn 3 s)) = true
  /\ has_fence (before_fence inside ++ lit "``") = false.
Proof.
  unfold opens_fence. intros H. apply andb_true_iff in H.
  destruct H as [Hstart H]. apply (startswith_split (lit "```")) in Hstart.
  change (length (lit "```")) with 3 in Hstart.
  remember (skipn 3 s) as t eqn:Et.
  destruct (take_word_split t) as [Hword Hall].
  destruct (after_word t) as [|x u] eqn:E; [discriminate|].
  apply andb_true_iff in H. destruct H as [Hx Hu].
  apply Ascii.eqb_eq in Hx. subst x. change (skipn 1 (LF :: u)) with u.
  destruct (before_fence_split u Hu) as [Hsplit Hnear]. cbv zeta.
  split; [|split; assumption].
  rewrite <- Hsplit, <- Hword. exact Hstart.
Qed.

Lemma first_region_None s :
  first_region s = None -> forall n, opens_fence (skipn n s) = false.
Proof.
  induction s as [|x s IH]; cbn [first_region]; intros H n.
  - destruct (opens_fence []) eqn:E; [discriminate|]. now destruct n.
  - destruct (opens_fence (x :: s)) eqn:E; [discriminate|].
    destruct n as [|n]; [exact E|]. cbn [skipn]. now apply IH.
Qed.

Lemma first_region_Some s : forall token body rest,
  first_region s = Some (token, body, rest) ->
  exists pre,
    s = pre ++ lit "```" ++ token ++ LF :: body ++ lit "```" ++ rest
    /\ forallb isword token = true
    /\ has_fence (body ++ lit "``") = false
    /\ forall n, n < length pre -> opens_fence (skipn n s) = false.
Proof.
  induction s as [|x s IH]; intros token body rest; cbn [first_region].
  - destruct (opens_fence []) eqn:E; [discriminate E|discriminate].
  - destruct (opens_fence (x :: s)) eqn:E.
    + intros [= <- <- <-]. exists [].
      destruct (opens_fence_split _ E) as (H1 & H2 & H3).
      split; [exact H1|]. split; [exact H2|]. split; [exact H3|].
      intros n Hn. cbn [length] in Hn. lia.
    + intros H. destruct (IH _ _ _ H) as (pre & H1 & H2 & H3 & H4).
      exists (x :: pre). split; [cbn [app]; now rewrite <- H1|].
      split; [exact H2|]. split; [exact H3|].
      intros [|n] Hn; [exact E|]. cbn [skipn]. apply H4.
      cbn [length] in Hn. lia.
Qed.

Lemma findall2_first_region message :
  findall2 code_pattern message
  = match first_region message with
    | None => []
    | Some (token, body, rest) => (token, body) :: findall2 code_pattern rest
    end.
Proof.
  destruct (first_region message) as [[[token body] rest]|] eqn:E.
  - destruct (first_region_Some _ _ _ _ E) as (pre & Hm & Hword & Hnear & Hpre).
    unfold findall2.
    rewrite (matches_step code_pattern message pre
               ((2, body) :: match token with
                             | [] => []
                             | _ :: _ => [(1, token)]
                             end) rest eq_refl).
    + cbn [fst map snd]. f_equal. now destruct token.
    + rewrite Hm at 1. apply search_skip; [|now apply match_at_fence].
      intros n Hn. rewrite <- Hm. apply match_at_no_opener. now apply Hpre.
  - unfold findall2. rewrite matches_none; [reflexivity|].
    apply search_None. intros n. apply match_at_no_opener.
    now apply first_region_None.
Qed.

(** C4 (as amended): reading from the left, a fence opens at the first
    place where three backticks are followed at once by word characters
    (possibly none) and a line feed and where three more backticks come
    somewhere after that line feed; the place need not start a line, and
    three backticks that are followed in another way open nothing.  The
    fence closes at the nearest three backticks after the line feed,
    wherever they stand; the snippet is the trimmed text in between, and the
    text after the closing backticks is read in the same way, so several
    fences give several snippets in source order. *)
Theorem C4_first_fence (message : str) :
  snippets_of message
  = match first_region message with
    | None => []
    | Some (token, body, rest) =>
        (strip body, match token with
                     | [] => lit "plaintext"
                     | _ :: _ => lower token
                     end)
        :: snippets_of rest
    end.
Proof.
  rewrite snippets_of_findall, findall2_first_region.
  destruct (first_region message) as [[[token body] rest]|]; [|reflexivity].
  rewrite snippets_of_findall. cbn [map snippet_of]. now destruct token.
Qed.

Lemma C4_first_fence_witness :
  snippets_of (unlines ["```c++"; "int x;"; "```"; "text"; "```py"; "y"; "```"])
  = [(lit "text", lit "plaintext")]
  /\ snippets_of (lit "see `q`: ```SQL" ++ LF :: lit "select 1 ```x```" ++ LF
                  :: lit "y```")
     = [(lit "select 1", lit "sql"); (lit "y", lit "plaintext")].
Proof.
  split.
  - refine (eq_trans
      (C4_first_fence
         (unlines ["```c++"; "int x;"; "```"; "text"; "```py"; "y"; "```"])) _).
    vm_compute. reflexivity.
  - refine (eq_trans
      (C4_first_fence
         (lit "see `q`: ```SQL" ++ LF :: lit "select 1 ```x```" ++ LF
          :: lit "y```")) _).
    vm_compute. reflexivity.
Defined.

(** C4 (as stated) fails: no line of this message starts with three
    backticks and its closing backticks are in the middle of a line, yet a
    snippet is extracted. *)
Lemma C4_fence_inside_a_line :
  line_starts_with_fence (lit "x ```py" ++ LF :: lit "a``` y") = false
  /\ snippets_of (lit "x ```py" ++ LF :: lit "a``` y") = [(lit "a", lit "py")].
Proof. vm_compute. split; reflexivity. Qed.

Lemma C9_prose_only_witness :
  format_message (lit "  hello `there`  ")
  = (wrap_html (lit "hello `there`"), [], []).
Proof.
  rewrite (C9_prose_only (lit "  hello `there`  ") eq_refl).
  - reflexivity.
  - cbn. intuition discriminate.
Defined.

(** The scan is complete: no match is left in the text after the last
    one. *)
Lemma finditer_complete r : consumes r = true ->
  forall fuel s, length s < fuel -> search r (snd (finditer fuel r s)) = None.
Proof.
  intros Hc fuel. induction fuel as [|f IH]; intros s Hlen; [lia|].
  cbn [finditer]. destruct (search r s) as [[[pre c] rest]|] eqn:E.
  - pose proof (search_shorter r Hc _ _ _ _ E) as Hrest.
    specialize (IH rest ltac:(lia)).
    now destruct (finditer f r rest).
  - exact E.
Qed.

Lemma patterns_consume :
  consumes code_pattern = true /\ consumes split_pattern = true
  /\ consumes (df_pattern false) = true /\ consumes (df_pattern true) = true.
Proof. repeat split. Qed.

Local Open Scope Z_scope.

(** *** The date written by [strftime] *)

Lemma digit_char_spec n :
  isdigit (digit_char n) = true
  /\ Z.of_N (code (digit_char n)) - 48 = n mod 10.
Proof.
  unfold digit_char.
  assert (H : 0 <= n mod 10 < 10) by (apply Z.mod_pos_bound; lia).
  remember (n mod 10) as r eqn:E. clear E.
  assert (Hr : r = 0 \/ r = 1 \/ r = 2 \/ r = 3 \/ r = 4 \/ r = 5 \/ r = 6
               \/ r = 7 \/ r = 8 \/ r = 9) by lia.
  repeat (destruct Hr as [->|Hr]; [split; reflexivity|]).
  subst r. split; reflexivity.
Qed.

Lemma int_of_snoc s n : int_of (s ++ [digit_char n]) = int_of s * 10 + n mod 10.
Proof.
  unfold int_of. rewrite fold_left_app. cbn [fold_left].
  destruct (digit_char_spec n) as [-> ->]. reflexivity.
Qed.

Lemma int_of_two a b : int_of [digit_char a; digit_char b] = a mod 10 * 10 + b mod 10.
Proof.
  change [digit_char a; digit_char b] with ([digit_char a] ++ [digit_char b]).
  rewrite int_of_snoc.
  change [digit_char a] with ([] ++ [digit_char a]).
  rewrite int_of_snoc. reflexivity.
Qed.

Lemma valid_datetime_bounds t : valid_datetime t = true ->
  1 <= year t <= 9999 /\ 1 <= month t <= 12 /\ 1 <= day t <= 31.
Proof.
  unfold valid_datetime. rewrite !andb_true_iff, !Z.leb_le.
  intros H. decompose [and] H. clear H.
  assert (days_in_month (year t) (month t) <= 31).
  { unfold days_in_month.
    destruct (month t =? 2); [destruct (is_leap (year t)); lia|].
    destruct ((month t =? 4) || (month t =? 6) || (month t =? 9)
              || (month t =? 11)); lia. }
  lia.
Qed.

(** From the year 1000 on [strftime_ymd] writes the year on four digits. *)
Lemma strftime_ymd_four_digits t : 1000 <= year t ->
  strftime_ymd t
  = [digit_char (year t / 1000); digit_char (year t / 100);
     digit_char (year t / 10); digit_char (year t); "-"%char;
     digit_char (month t / 10); digit_char (month t); "-"%char;
     digit_char (day t / 10); digit_char (day t)].
Proof.
  intros Hy. unfold strftime_ymd, year_text.
  destruct (Z.leb_spec 1000 (year t)); [|lia].
  destruct (Z.leb_spec 100 (year t)); [|lia].
  destruct (Z.leb_spec 10 (year t)); [|lia].
  reflexivity.
Qed.

(** For such a year the text is the ISO form of the date: the year on four
    digits, the month and the day on two, with hyphens between them. *)
Lemma strftime_ymd_iso t : valid_datetime t = true -> 1000 <= year t ->
  exists yyyy mm dd,
    strftime_ymd t = yyyy ++ "-"%char :: mm ++ "-"%char :: dd
    /\ length yyyy = 4%nat /\ length mm = 2%nat /\ length dd = 2%nat
    /\ forallb isdigit (yyyy ++ mm ++ dd) = true
    /\ int_of yyyy = year t /\ int_of mm = month t /\ int_of dd = day t.
Proof.
  intros H Hfour. apply valid_datetime_bounds in H.
  destruct H as (Hy & Hm & Hd).
  exists [digit_char (year t / 1000); digit_char (year t / 100);
          digit_char (year t / 10); digit_char (year t)],
         [digit_char (month t / 10); digit_char (month t)],
         [digit_char (day t / 10); digit_char (day t)].
  split; [now apply strftime_ymd_four_digits|].
  repeat (split; [reflexivity|]).
  split; [|split; [|split]].
  - cbn [app forallb].
    repeat match goal with
           | |- context [isdigit (digit_char ?n)] =>
               rewrite (proj1 (digit_char_spec n))
           end. reflexivity.
  - change [digit_char (year t / 1000); digit_char (year t / 100);
            digit_char (year t / 10); digit_char (year t)]
      with (([digit_char (year t / 1000); digit_char (year t / 100)]
             ++ [digit_char (year t / 10)]) ++ [digit_char (year t)]).
    rewrite !int_of_snoc, int_of_two.
    generalize (year t) Hy. intros y Hy'. clear - Hy'.
    Z.to_euclidean_division_equations. lia.
  - rewrite int_of_two. generalize (month t) Hm. intros m Hm'. clear - Hm'.
    Z.to_euclidean_division_equations. lia.
  - rewrite int_of_two. generalize (day t) Hd. intros d Hd'. clear - Hd'.
    Z.to_euclidean_division_equations. lia.
Qed.

Local Close Scope Z_scope.

(** * Further properties of [format_message] *)

Lemma repeat_loop_rest body greedy :
  hands_rest body -> forall fuel, hands_rest (repeat_loop body greedy fuel).
Proof.
  intros Hbody fuel. induction fuel as [|f IH]; intros s c k res; cbn [repeat_loop].
  - intros H. exists 0, c. exact H.
  - assert (Hmore : body s c (fun s' c' =>
                if length s' <? length s
                then repeat_loop body greedy f s' c' k else None) = Some res ->
              exists n c', k (skipn n s) c' = Some res).
    { intros H. apply Hbody in H. destruct H as (n1 & c1 & H).
      destruct (length (skipn n1 s) <? length s); [|discriminate].
      apply IH in H. destruct H as (n2 & c2 & H).
      rewrite skipn_skipn in H. eauto. }
    destruct greedy.
    + destruct (body s c _) eqn:E.
      * intros [= <-]. now apply Hmore.
      * intros H. exists 0, c. exact H.
    + destruct (k s c) eqn:E.
      * intros [= <-]. exists 0, c. exact E.
      * apply Hmore.
Qed.

Lemma run_rest r : hands_rest (run r).
Proof.
  induction r as [a|p| |r1 IH1 r2 IH2|r1 IH1 r2 IH2|g r1 IH1|n r1 IH1| ];
    intros s c k res; cbn [run].
  - destruct s as [|x s]; [discriminate|].
    destruct (Ascii.eqb x a); [|discriminate].
    intros H. exists 1, c. exact H.
  - destruct s as [|x s]; [discriminate|].
    destruct (p x); [|discriminate].
    intros H. exists 1, c. exact H.
  - intros H. exists 0, c. exact H.
  - intros H. apply IH1 in H. destruct H as (n1 & c1 & H).
    apply IH2 in H. destruct H as (n2 & c2 & H).
    rewrite skipn_skipn in H. eauto.
  - destruct (run r1 s c k) eqn:E.
    + intros [= <-]. now apply IH1 in E.
    + apply IH2.
  - apply repeat_loop_rest, IH1.
  - intros H. apply IH1 in H. destruct H as (n1 & c1 & H). eauto.
  - destruct (at_end s); [|discriminate]. intros H. exists 0, c. exact H.
Qed.

Lemma has_fence_skipn_true s : forall n,
  has_fence (skipn n s) = true -> has_fence s = true.
Proof.
  induction s as [|x s IH]; intros n H.
  - now destruct n.
  - destruct n as [|n]; [exact H|]. cbn [skipn] in H.
    cbn [has_fence]. rewrite (IH n H). apply orb_true_r.
Qed.

(** A pattern that ends with three backticks only matches where three
    backticks follow. *)
Lemma run_Word_fence_needs_fence s c k res :
  run (Word "```") s c k = Some res -> has_fence s = true.
Proof.
  rewrite run_Word_fence. destruct (startswith (lit "```") s) eqn:E;
    [|discriminate].
  intros _. destruct s; cbn [has_fence]; now rewrite E.
Qed.

Lemma run_Cat_needs_fence a r :
  (forall s c k res, run r s c k = Some res -> has_fence s = true) ->
  forall s c k res, run (Cat a r) s c k = Some res -> has_fence s = true.
Proof.
  intros Hr s c k res H. rewrite run_Cat in H.
  apply run_rest in H. destruct H as (n & c' & H).
  apply Hr in H. exact (has_fence_skipn_true _ _ H).
Qed.

Lemma has_fence_pair_skipn s : has_fence_pair s = false ->
  forall n, startswith (lit "```") (skipn n s) = true ->
            has_fence (skipn 3 (skipn n s)) = false.
Proof.
  induction s as [|x s IH]; intros H n Hn.
  - now destruct n.
  - cbn [has_fence_pair] in H. apply orb_false_iff in H. destruct H as [H0 H].
    destruct n as [|n].
    + cbn [skipn] in Hn. rewrite Hn in H0. exact H0.
    + apply (IH H n Hn).
Qed.

Lemma no_fence_pair_no_match (r : regex) s :
  (forall t c k res, run r t c k = Some res -> has_fence t = true) ->
  has_fence_pair s = false ->
  search (Cat (Word "```") r) s = None.
Proof.
  intros Hr H. apply search_None. intros n. unfold match_at.
  rewrite run_fence_prefix.
  destruct (startswith (lit "```") (skipn n s)) eqn:E; [|reflexivity].
  pose proof (has_fence_pair_skipn _ H n E) as Hno.
  destruct (run r (skipn 3 (skipn n s)) [] _) eqn:Er; [|reflexivity].
  apply Hr in Er. congruence.
Qed.

Lemma no_fence_pair_no_code s :
  has_fence_pair s = false -> search code_pattern s = None.
Proof.
  apply no_fence_pair_no_match.
  do 3 apply run_Cat_needs_fence. exact run_Word_fence_needs_fence.
Qed.

Lemma no_fence_pair_no_split s :
  has_fence_pair s = false -> search split_pattern s = None.
Proof.
  apply no_fence_pair_no_match.
  do 3 apply run_Cat_needs_fence. exact run_Word_fence_needs_fence.
Qed.

(** X1: a fence needs three backticks to open and three more, later, to
    close.  In a message that has no such pair (no fence at all, or a fence
    that is never closed) nothing is extracted as code: the whole message is
    one text part, cleaned of its tables and wrapped, and each table match
    gives its frame once. *)
Theorem unclosed_fence_is_prose (message : str) :
  has_fence_pair message = false ->
  format_message message
  = (match strip message with
     | [] => []
     | part =>
         match strip (re_sub_empty (df_pattern true) part) with
         | [] => []
         | non_table_text => wrap_html non_table_text
         end
     end,
     [],
     tables_loop (findall2 (df_pattern false) message) []).
Proof.
  intros H. unfold format_message, re_split1.
  unfold findall2 at 1.
  rewrite (matches_none _ _ (no_fence_pair_no_code _ H)).
  rewrite (matches_none _ _ (no_fence_pair_no_split _ H)).
  cbn [fst snd map concat app parts_loop Nat.even text_branch
       formatted_html code_snippets dataframes].
  destruct (strip message) as [|x part]; cbn [truthy]; [reflexivity|].
  now destruct (strip (re_sub_empty (df_pattern true) (x :: part))).
Qed.

Lemma unclosed_fence_is_prose_witness :
  format_message (unlines ["run this:"; "```sql"; "select 1"])
  = (wrap_html (unlines ["run this:"; "```sql"; "select 1"]), [], []).
Proof.
  refine (eq_trans (unclosed_fence_is_prose
            (unlines ["run this:"; "```sql"; "select 1"]) eq_refl) _).
  vm_compute. reflexivity.
Defined.

(** X2: the split of the message and the list of fence matches agree: with
    [k] code blocks [parts] has [2k+1] elements, so every odd part finds its
    code block (the test [code_index < len(code_blocks)] never fails) and the
    snippets are, in source order, the trimmed code and the language of each
    fence match. *)
Theorem every_fence_gives_a_snippet (message : str) :
  snippets_of message = map snippet_of (findall2 code_pattern message)
  /\ length (re_split1 split_pattern message)
     = 2 * length (snippets_of message) + 1.
Proof.
  rewrite snippets_of_findall, length_map. split; [reflexivity|].
  apply parts_count.
Qed.

(** X3: the frames of the table matches of the whole message are appended
    at every even index of [parts]: the table list is the list of these
    frames, in source order, repeated once more than there are snippets. *)
Theorem tables_repeat_with_snippets (message : str) :
  tables_of message
  = concat (repeat (tables_loop (findall2 (df_pattern false) message) [])
                   (S (length (snippets_of message)))).
Proof.
  rewrite snippets_of_findall, length_map. apply tables_of_repeat.
Qed.

(** X4: a message without any pipe character has no table, whatever else it
    holds. *)
Theorem no_pipe_no_table (message : str) :
  ~ In "|"%char message -> tables_of message = [].
Proof.
  intros H. rewrite tables_of_repeat. unfold findall2 at 1.
  rewrite (matches_none _ _ (no_pipe_no_match false _ H)).
  cbn [fst map tables_loop].
  induction (S (length (findall2 code_pattern message))) as [|n IH];
    [reflexivity|exact IH].
Qed.

Lemma no_pipe_no_table_witness :
  tables_of (unlines ["total: 3"; "```"; "a - b"; "```"]) = [].
Proof.
  apply (no_pipe_no_table (unlines ["total: 3"; "```"; "a - b"; "```"])).
  cbn. intuition discriminate.
Defined.

Lemma cells_trimmed line c : In c (cells line) -> trimmed c.
Proof.
  unfold cells. intros H. apply in_map_iff in H. destruct H as (h & <- & H).
  apply filter_In in H. destruct H as [_ H]. split.
  - now destruct (strip h).
  - apply strip_idem.
Qed.

(** X5: in every table that is returned, each header and each cell of each
    row is a non-empty text without white space at its ends. *)
Theorem table_cells_trimmed (message : str) (tb : TableBlock) :
  In tb (tables_of message) ->
  (forall h, In h (headers tb) -> trimmed h)
  /\ (forall row cell, In row (rows tb) -> In cell row -> trimmed cell).
Proof.
  intros H. rewrite tables_of_repeat in H. apply In_concat_repeat in H.
  apply tables_loop_In in H. destruct H as ([header rws] & _ & Ht).
  unfold table_of_match in Ht.
  destruct (rows_loop (cells header) 0 (split LF (strip rws)) []) eqn:E;
    [discriminate|].
  injection Ht as <-. cbn [rows headers]. split.
  - intros h. apply cells_trimmed.
  - intros row cell Hrow Hcell. rewrite <- E in Hrow.
    apply rows_loop_In in Hrow. destruct Hrow as [[]|(line & _ & ->)].
    exact (cells_trimmed _ _ Hcell).
Qed.

Lemma table_cells_trimmed_witness :
  trimmed (lit "first name").
Proof.
  refine (proj1 (table_cells_trimmed
                   (unlines ["|  first name | n |"; "|---|---|"; "| a | 1 |"])
                   (DataFrame [[lit "a"; lit "1"]] [lit "first name"; lit "n"])
                   _) (lit "first name") _).
  - vm_compute. left. reflexivity.
  - left. reflexivity.
Defined.

(** ** What a snippet looks like *)

Lemma repeat_loop_keeps_group n body greedy :
  keeps_group n body ->
  forall fuel, keeps_group n (repeat_loop body greedy fuel).
Proof.
  intros Hbody fuel. induction fuel as [|f IH]; intros s c k res; cbn [repeat_loop].
  - intros H. exists s, c. auto.
  - assert (Hmore : body s c (fun s' c' =>
                if length s' <? length s
                then repeat_loop body greedy f s' c' k else None) = Some res ->
              exists s' c', k s' c' = Some res /\ group n c' = group n c).
    { intros H. apply Hbody in H. destruct H as (s1 & c1 & H & Hg).
      destruct (length s1 <? length s); [|discriminate].
      apply IH in H. destruct H as (s2 & c2 & H & Hg2).
      exists s2, c2. split; [assumption|congruence]. }
    destruct greedy.
    + destruct (body s c _) eqn:E.
      * intros [= <-]. now apply Hmore.
      * intros H. exists s, c. auto.
    + destruct (k s c) eqn:E.
      * intros [= <-]. exists s, c. auto.
      * apply Hmore.
Qed.

Lemma run_keeps_group n r : captures n r = false -> keeps_group n (run r).
Proof.
  induction r as [a|p| |r1 IH1 r2 IH2|r1 IH1 r2 IH2|g r1 IH1|m r1 IH1| ];
    cbn [captures]; intros Hr s c k res; cbn [run].
  - destruct s as [|x s]; [discriminate|].
    destruct (Ascii.eqb x a); [|discriminate]. intros H. exists s, c. auto.
  - destruct s as [|x s]; [discriminate|].
    destruct (p x); [|discriminate]. intros H. exists s, c. auto.
  - intros H. exists s, c. auto.
  - apply orb_false_iff in Hr. destruct Hr as [H1 H2].
    intros H. apply (IH1 H1) in H. destruct H as (s1 & c1 & H & Hg).
    apply (IH2 H2) in H. destruct H as (s2 & c2 & H & Hg2).
    exists s2, c2. split; [assumption|congruence].
  - apply orb_false_iff in Hr. destruct Hr as [H1 H2].
    destruct (run r1 s c k) eqn:E.
    + intros [= <-]. now apply (IH1 H1) in E.
    + now apply IH2.
  - now apply repeat_loop_keeps_group, IH1.
  - apply orb_false_iff in Hr. destruct Hr as [Hm H1].
    intros H. apply (IH1 H1) in H. destruct H as (s1 & c1 & H & Hg).
    eexists _, _. split; [exact H|]. cbn [group]. now rewrite Hm.
  - destruct (at_end s); [|discriminate]. intros H. exists s, c. auto.
Qed.

(** A repetition of a character class takes off characters of the class and
    leaves the groups alone. *)
Lemma repeat_loop_Class p greedy : forall fuel s c k res,
  repeat_loop (run (Class p)) greedy fuel s c k = Some res ->
  exists n, forallb p (firstn n s) = true /\ n <= length s
            /\ k (skipn n s) c = Some res.
Proof.
  induction fuel as [|f IH]; intros s c k res; cbn [repeat_loop].
  - intros H. exists 0. auto with arith.
  - assert (Hmore : run (Class p) s c (fun s' c' =>
                if length s' <? length s
                then repeat_loop (run (Class p)) greedy f s' c' k else None)
              = Some res ->
              exists n, forallb p (firstn n s) = true /\ n <= length s
                        /\ k (skipn n s) c = Some res).
    { destruct s as [|x s]; [discriminate|]. rewrite run_Class_cons.
      destruct (p x) eqn:Hx; [|discriminate].
      destruct (length s <? length (x :: s)); [|discriminate].
      intros H. apply IH in H. destruct H as (n & Hn & Hle & H).
      exists (S n). cbn [firstn forallb skipn length]. rewrite Hx, Hn.
      repeat split; [lia|exact H]. }
    destruct greedy.
    + destruct (run (Class p) s c _) eqn:E.
      * intros [= <-]. now apply Hmore.
      * intros H. exists 0. auto with arith.
    + destruct (k s c) eqn:E.
      * intros [= <-]. exists 0. auto with arith.
      * apply Hmore.
Qed.

Lemma group1_of_fence s rest c :
  match_at code_pattern s = Some (rest, c) ->
  forallb isword (group 1 c) = true.
Proof.
  unfold match_at.
  change code_pattern with
    (Cat (Word "```")
       (Cat (Opt (Group 1 (Plus (Class isword))))
          (Cats [Lit LF; Group 2 (Repeat false (dot true)); Word "```"]))).
  rewrite run_fence_prefix.
  destruct (startswith (lit "```") s); [|discriminate].
  remember (skipn 3 s) as t eqn:Et. clear Et s.
  rewrite run_Cat, run_Opt.
  assert (Htail : forall t1 c1 res,
            run (Cats [Lit LF; Group 2 (Repeat false (dot true)); Word "```"])
              t1 c1 (fun s' c' => Some (s', c')) = Some res ->
            group 1 (snd res) = group 1 c1).
  { intros t1 c1 res H. apply (run_keeps_group 1) in H; [|reflexivity].
    destruct H as (s' & c' & [= <-] & Hg). exact Hg. }
  destruct (run (Group 1 (Plus (Class isword))) t [] _) as [res|] eqn:E.
  - intros [= ->]. rewrite run_Group, run_Plus_Class in E.
    destruct t as [|x t]; [discriminate|].
    destruct (isword x) eqn:Hx; [|discriminate].
    apply repeat_loop_Class in E. destruct E as (n & Hn & Hle & E).
    apply Htail in E. cbn [snd group Nat.eqb] in E. rewrite E.
    replace (length (x :: t) - length (skipn n t)) with (S n)
      by (rewrite length_skipn; cbn [length]; lia).
    cbn [firstn forallb]. now rewrite Hx, Hn.
  - intros H. apply Htail in H. cbn [snd] in H. now rewrite H.
Qed.

Lemma search_found r s : forall pre c rest,
  search r s = Some (pre, c, rest) ->
  exists t, match_at r t = Some (rest, c).
Proof.
  induction s as [|x s IH]; intros pre c rest; cbn [search].
  - destruct (match_at r []) as [[rest' c']|] eqn:E; [|discriminate].
    intros [= <- <- <-]. eauto.
  - destruct (match_at r (x :: s)) as [[rest' c']|] eqn:E.
    + intros [= <- <- <-]. eauto.
    + destruct (search r s) as [[[pre' c'] rest']|] eqn:Es; [|discriminate].
      intros [= <- <- <-]. eapply IH. reflexivity.
Qed.

Lemma finditer_found r fuel : forall s h,
  In h (fst (finditer fuel r s)) ->
  exists t rest, match_at r t = Some (rest, snd h).
Proof.
  induction fuel as [|f IH]; intros s h; cbn [finditer]; [intros []|].
  destruct (search r s) as [[[pre c] rest]|] eqn:E; [|intros []].
  specialize (IH rest h). destruct (finditer f r rest) as [hs tail].
  cbn [fst] in *. intros [<-|H].
  - apply search_found in E. destruct E as (t & E). eauto.
  - now apply IH.
Qed.

Lemma lower_char_idem c : lower_char (lower_char c) = lower_char c.
Proof. destruct c as [[] [] [] [] [] [] [] []]; reflexivity. Qed.

Lemma lower_char_not_upper c : is_upper (lower_char c) = false.
Proof. destruct c as [[] [] [] [] [] [] [] []]; reflexivity. Qed.

(** X6: every snippet has a code without white space at its ends and a
    language that is not empty, holds no capital letter and is left as it is
    by another lower-casing. *)
Theorem snippet_shape (message code language : str) :
  In (code, language) (snippets_of message) ->
  strip code = code
  /\ language <> []
  /\ existsb is_upper language = false
  /\ lower language = language.
Proof.
  rewrite snippets_of_findall. intros H. apply in_map_iff in H.
  destruct H as ([token body] & Hs & _). cbn [snippet_of] in Hs.
  injection Hs as <- <-. split; [apply strip_idem|].
  destruct token as [|x token]; cbn [truthy].
  - repeat split; discriminate.
  - split; [discriminate|]. split.
    + unfold lower. generalize (x :: token). intros l.
      induction l as [|y l IH]; cbn [map existsb]; [reflexivity|].
      now rewrite lower_char_not_upper, IH.
    + unfold lower. rewrite map_map. apply map_ext.
      intros y. apply lower_char_idem.
Qed.

Lemma snippet_shape_witness :
  strip (lit "SELECT 1") = lit "SELECT 1"
  /\ lit "sql" <> []
  /\ existsb is_upper (lit "sql") = false
  /\ lower (lit "sql") = lit "sql".
Proof.
  apply (snippet_shape (unlines ["```SQL"; "  SELECT 1  "; "```"])).
  vm_compute. left. reflexivity.
Defined.

(** ** What the text looks like *)

Lemma parts_loop_html code_blocks df_matches parts : forall i st,
  exists texts,
    formatted_html (parts_loop code_blocks df_matches i parts st)
    = formatted_html st ++ concat (map wrap_html texts)
    /\ (forall t, In t texts -> trimmed t)
    /\ length texts <= evens i (length parts).
Proof.
  induction parts as [|p parts IH]; intros i st; cbn [parts_loop length evens].
  - exists []. cbn [map concat length]. rewrite app_nil_r.
    split; [reflexivity|]. split; [intros t []|lia].
  - destruct (IH (S i) (if Nat.even i then text_branch df_matches (strip p) st
                        else code_branch code_blocks st))
      as (texts & Hhtml & Htrim & Hlen).
    rewrite Hhtml. destruct (Nat.even i).
    + unfold text_branch at 1. cbn [formatted_html].
      destruct (truthy (strip p)).
      * destruct (strip (re_sub_empty (df_pattern true) (strip p)))
          as [|x t] eqn:E; cbn [truthy].
        -- exists texts. split; [reflexivity|]. split; [assumption|lia].
        -- exists ((x :: t) :: texts). cbn [map concat length].
           rewrite <- app_assoc. split; [reflexivity|]. split; [|lia].
           intros t' [<-|H]; [|now apply Htrim].
           split; [discriminate|]. rewrite <- E. apply strip_idem.
      * exists texts. split; [reflexivity|]. split; [assumption|lia].
    + exists texts. split; [|split; [assumption|lia]].
      unfold code_branch.
      now destruct (nth_error code_blocks (code_index st)).
Qed.

(** X7: the text that is returned is a sequence of complete wrappers, one
    around each text part that is not empty once its tables are removed and
    it is trimmed: never an empty wrapper, and at most one wrapper more than
    there are snippets. *)
Theorem text_is_wrapped_parts (message : str) :
  exists texts,
    text_of message = concat (map wrap_html texts)
    /\ (forall t, In t texts -> trimmed t)
    /\ length texts <= S (length (snippets_of message)).
Proof.
  unfold text_of, format_message. cbn [fst].
  destruct (parts_loop_html (findall2 code_pattern message)
              (findall2 (df_pattern false) message)
              (re_split1 split_pattern message) 0 (LoopState [] [] [] 0))
    as (texts & Hhtml & Htrim & Hlen).
  exists texts. split; [exact Hhtml|]. split; [exact Htrim|].
  rewrite parts_count, evens_pairs in Hlen.
  now rewrite snippets_of_findall, length_map.
Qed.

(** * Further properties of [format_timestamp_label] *)

Local Open Scope Z_scope.



(** X9: once the current date is past the first thirty days of the calendar
    the call returns a label for every argument, and that label is
    ["Invalid timestamp"] exactly when the argument is neither a [datetime]
    nor a string that one of the two formats accepts: no timestamp that
    parses is ever given the label of the failures. *)
Theorem invalid_label_means_no_parse (today : date) (timestamp : value) :
  30 < today ->
  exists label,
    format_timestamp_label today timestamp = Return label
    /\ (label = lit "Invalid timestamp" <-> parse_timestamp timestamp = None).
Proof.
  intros Htoday. unfold format_timestamp_label.
  destruct (parse_timestamp timestamp) as [t|].
  - rewrite (label_of_days_ago _ _ Htoday). cbv zeta.
    eexists. split; [reflexivity|]. split; [|discriminate].
    intros H. exfalso.
    destruct (today - date_of t =? 0); [discriminate|].
    destruct (today - date_of t =? 1); [discriminate|].
    destruct ((2 <=? today - date_of t) && (today - date_of t <=? 7));
      [discriminate|].
    destruct ((8 <=? today - date_of t) && (today - date_of t <=? 30));
      [discriminate|].
    apply (f_equal (@length _)) in H. unfold strftime_ymd, year_text in H.
    rewrite !length_app in H.
    destruct (1000 <=? year t), (100 <=? year t), (10 <=? year t);
      discriminate.
  - eexists. split; [reflexivity|]. split; reflexivity.
Qed.

Lemma invalid_label_means_no_parse_witness :
  exists label,
    format_timestamp_label 738955 (Str (lit "2024-3-1")) = Return label
    /\ (label = lit "Invalid timestamp"
        <-> parse_timestamp (Str (lit "2024-3-1")) = None).
Proof.
  apply (invalid_label_means_no_parse 738955 (Str (lit "2024-3-1"))).
  reflexivity.
Defined.

(** X25: for a timestamp that parses, the label follows the calendar date
    alone, with half-open buckets: today, exactly one day ago, from seven
    days ago up to but excluding one day ago, from thirty days ago up to but
    excluding seven days ago (so eight days ago), and for anything older
    with a year of four digits the date written as YYYY-MM-DD. *)
Theorem recency_buckets (today : date) (timestamp : value) (t : datetime) :
  parse_timestamp timestamp = Some t ->
  30 < today ->
  let d := date_of t in
  let label := format_timestamp_label today timestamp in
  (d = today -> label = Return (lit "Today"))
  /\ (d = today - 1 -> label = Return (lit "Yesterday"))
  /\ (today - 7 <= d < today - 1 -> label = Return (lit "Previous 7 days"))
  /\ (today - 30 <= d < today - 7 -> label = Return (lit "Previous 30 days"))
  /\ (d < today - 30 -> 1000 <= year t ->
      label = Return (iso_date (year t) (month t) (day t))).
Proof.
  intros Hparse Htoday d label. subst label. unfold format_timestamp_label.
  rewrite Hparse, (label_of_days_ago _ _ Htoday). cbv zeta. fold d.
  repeat split; intros H; try solve [label_cases].
  intros Hfour. rewrite (strftime_ymd_four_digits t Hfour). label_cases.
Qed.

Lemma recency_buckets_witness :
  format_timestamp_label 738955 (Str (lit "2024-03-02 10:00:00"))
  = Return (lit "Previous 30 days")
  /\ format_timestamp_label 738955 (Str (lit "2024-03-03 23:59:59"))
     = Return (lit "Previous 7 days")
  /\ format_timestamp_label 738955 (Str (lit "2024-02-08"))
     = Return (lit "2024-02-08").
Proof.
  split; [|split].
  - refine (proj1 (proj2 (proj2 (proj2
      (recency_buckets 738955 (Str (lit "2024-03-02 10:00:00"))
         (mk_datetime 2024 3 2 10 0 0) _ _)))) _).
    + vm_compute. reflexivity.
    + reflexivity.
    + vm_compute. split; [discriminate|reflexivity].
  - refine (proj1 (proj2 (proj2
      (recency_buckets 738955 (Str (lit "2024-03-03 23:59:59"))
         (mk_datetime 2024 3 3 23 59 59) _ _))) _).
    + vm_compute. reflexivity.
    + reflexivity.
    + vm_compute. split; [discriminate|reflexivity].
  - refine (proj2 (proj2 (proj2 (proj2
      (recency_buckets 738955 (Str (lit "2024-02-08"))
         (mk_datetime 2024 2 8 0 0 0) _ _)))) _ _).
    + vm_compute. reflexivity.
    + reflexivity.
    + vm_compute. reflexivity.
    + vm_compute. discriminate.
Defined.

Local Close Scope Z_scope.

(** ** The date label read back *)

Local Open Scope Z_scope.

Lemma run_re_Y_then r a b c d rest c0 k :
  isdigit a = true -> isdigit b = true -> isdigit c = true ->
  isdigit d = true ->
  run (Cat re_Y r) (a :: b :: c :: d :: rest) c0 k
  = run r rest ((1%nat, [a; b; c; d]) :: c0) k.
Proof.
  intros Ha Hb Hc Hd. rewrite run_Cat. unfold re_Y, Digit.
  rewrite run_Group. cbn [Cats].
  rewrite run_Cat, run_Class_cons, Ha.
  rewrite run_Cat, run_Class_cons, Hb.
  rewrite run_Cat, run_Class_cons, Hc.
  rewrite run_Class_cons, Hd.
  change (a :: b :: c :: d :: rest) with ([a; b; c; d] ++ rest).
  now rewrite firstn_app_exact.
Qed.

(** A date on 4-2-2 digits is read by the date format and refused by the
    format with a time. *)
Lemma match_date_text a b c d m dd :
  isdigit a = true -> isdigit b = true -> isdigit c = true ->
  isdigit d = true -> 1 <= m <= 12 -> 1 <= dd <= 31 ->
  match_at date_format
    (a :: b :: c :: d :: "-"%char :: digit_char (m / 10) :: digit_char m
       :: "-"%char :: digit_char (dd / 10) :: [digit_char dd])
  = Some ([], [(3%nat, [digit_char (dd / 10); digit_char dd]);
               (2%nat, [digit_char (m / 10); digit_char m]);
               (1%nat, [a; b; c; d])])
  /\ match_at datetime_format
       (a :: b :: c :: d :: "-"%char :: digit_char (m / 10) :: digit_char m
          :: "-"%char :: digit_char (dd / 10) :: [digit_char dd])
     = None.
Proof.
  intros Ha Hb Hc Hd Hm Hdd. unfold match_at.
  change date_format with (Cat re_Y (Cats [Lit "-"; re_m; Lit "-"; re_d])).
  change datetime_format with
    (Cat re_Y (Cats [Lit "-"; re_m; Lit "-"; re_d; Plus (Class isspace);
                     re_H; Lit ":"; re_M; Lit ":"; re_S])).
  rewrite !(run_re_Y_then _ a b c d _ _ _ Ha Hb Hc Hd).
  assert (Hm' : m = 1 \/ m = 2 \/ m = 3 \/ m = 4 \/ m = 5 \/ m = 6 \/ m = 7 \/ m = 8 \/ m = 9 \/ m = 10 \/ m = 11 \/ m = 12) by lia.
  assert (Hdd' : dd = 1 \/ dd = 2 \/ dd = 3 \/ dd = 4 \/ dd = 5 \/ dd = 6 \/ dd = 7 \/ dd = 8 \/ dd = 9 \/ dd = 10 \/ dd = 11 \/ dd = 12 \/ dd = 13 \/ dd = 14 \/ dd = 15 \/ dd = 16 \/ dd = 17 \/ dd = 18 \/ dd = 19 \/ dd = 20 \/ dd = 21 \/ dd = 22 \/ dd = 23 \/ dd = 24 \/ dd = 25 \/ dd = 26 \/ dd = 27 \/ dd = 28 \/ dd = 29 \/ dd = 30 \/ dd = 31) by lia.
  clear Hm Hdd Ha Hb Hc Hd.
  destruct Hm' as [->|[->|[->|[->|[->|[->|[->|[->|[->|[->|[->| ->]]]]]]]]]]];
    destruct Hdd' as [->|[->|[->|[->|[->|[->|[->|[->|[->|[->|[->|[->|[->|[->|[->|[->|[->|[->|[->|[->|[->|[->|[->|[->|[->|[->|[->|[->|[->|[->| ->]]]]]]]]]]]]]]]]]]]]]]]]]]]]]];
    vm_compute; split; reflexivity.
Qed.

Lemma int_of_year y : 0 <= y <= 9999 ->
  int_of [digit_char (y / 1000); digit_char (y / 100); digit_char (y / 10);
          digit_char y] = y.
Proof.
  intros Hy.
  change [digit_char (y / 1000); digit_char (y / 100); digit_char (y / 10);
          digit_char y]
    with (([digit_char (y / 1000); digit_char (y / 100)]
           ++ [digit_char (y / 10)]) ++ [digit_char y]).
  rewrite !int_of_snoc, int_of_two.
  Z.to_euclidean_division_equations. lia.
Qed.

Lemma int_of_two_digits n : 0 <= n <= 99 ->
  int_of [digit_char (n / 10); digit_char n] = n.
Proof.
  intros Hn. rewrite int_of_two. Z.to_euclidean_division_equations. lia.
Qed.

Lemma valid_date_part y m d h mi s :
  valid_datetime (mk_datetime y m d h mi s) = true ->
  valid_datetime (mk_datetime y m d 0 0 0) = true.
Proof.
  unfold valid_datetime. cbn [year month day hour minute second].
  rewrite !andb_true_iff. intros H. decompose [and] H. clear H.
  repeat split; assumption || reflexivity.
Qed.

(** What [strftime] writes for a valid date, [strptime] reads back with the
    date format, and only with that one. *)
Lemma strptime_strftime t : valid_datetime t = true -> 1000 <= year t ->
  strptime (strftime_ymd t) datetime_format = None
  /\ strptime (strftime_ymd t) date_format
     = Some (mk_datetime (year t) (month t) (day t) 0 0 0).
Proof.
  intros Hv Hfour. pose proof (valid_datetime_bounds _ Hv) as (Hy & Hm & Hd).
  rewrite (strftime_ymd_four_digits t Hfour).
  destruct t as [y m d h mi s]. cbn [year month day] in *.
  unfold strptime.
  destruct (match_date_text (digit_char (y / 1000)) (digit_char (y / 100))
              (digit_char (y / 10)) (digit_char y) m d
              (proj1 (digit_char_spec _)) (proj1 (digit_char_spec _))
              (proj1 (digit_char_spec _)) (proj1 (digit_char_spec _)) Hm Hd)
    as [-> ->].
  split; [reflexivity|]. cbn [group Nat.eqb].
  rewrite int_of_year, !int_of_two_digits by lia.
  change (int_of []) with 0.
  now rewrite (valid_date_part _ _ _ _ _ _ Hv).
Qed.

(** X10: the date that labels an old conversation is itself a timestamp
    that the function accepts: read back, it parses (with the date format) to
    the same day at midnight and gets the same label again.  The year is
    taken to have four digits, where [strftime] writes the same text on every
    platform. *)
Theorem date_label_parses_back (today : date) (timestamp : value) (t : datetime) :
  parse_timestamp timestamp = Some t ->
  valid_datetime t = true ->
  1000 <= year t ->
  30 < today ->
  date_of t < today - 30 ->
  format_timestamp_label today timestamp = Return (strftime_ymd t)
  /\ parse_timestamp (Str (strftime_ymd t))
     = Some (mk_datetime (year t) (month t) (day t) 0 0 0)
  /\ format_timestamp_label today (Str (strftime_ymd t))
     = Return (strftime_ymd t).
Proof.
  intros Hparse Hv Hfour Htoday Hold.
  assert (Hback : parse_timestamp (Str (strftime_ymd t))
                  = Some (mk_datetime (year t) (month t) (day t) 0 0 0)).
  { cbn [parse_timestamp]. destruct (strptime_strftime t Hv Hfour) as [-> ->].
    reflexivity. }
  assert (Hlabel : forall u, date_of u = date_of t ->
            strftime_ymd u = strftime_ymd t ->
            label_of today u = Return (strftime_ymd t)).
  { intros u Hdate Hstr. rewrite (label_of_days_ago _ _ Htoday). cbv zeta.
    rewrite Hdate, Hstr. revert Hold. generalize (date_of t). intros d Hold.
    label_cases. }
  split; [|split; [exact Hback|]].
  - unfold format_timestamp_label. rewrite Hparse. now apply Hlabel.
  - unfold format_timestamp_label. rewrite Hback. now apply Hlabel.
Qed.

Lemma date_label_parses_back_witness :
  format_timestamp_label 738955 (Str (lit "2023-12-31 23:59:59"))
  = Return (lit "2023-12-31")
  /\ parse_timestamp (Str (lit "2023-12-31"))
     = Some (mk_datetime 2023 12 31 0 0 0)
  /\ format_timestamp_label 738955 (Str (lit "2023-12-31"))
     = Return (lit "2023-12-31").
Proof.
  refine (date_label_parses_back 738955 (Str (lit "2023-12-31 23:59:59"))
            (mk_datetime 2023 12 31 23 59 59) _ _ _ _ _).
  - vm_compute. reflexivity.
  - reflexivity.
  - vm_compute. discriminate.
  - reflexivity.
  - reflexivity.
Defined.

Local Close Scope Z_scope.

(** * The groups of the sidebar *)

Lemma str_eqb_spec a : forall b, reflect (a = b) (str_eqb a b).
Proof.
  induction a as [|x a IH]; intros [|y b]; cbn [str_eqb];
    try (constructor; congruence).
  destruct (Ascii.eqb_spec x y) as [->|Hxy]; cbn [andb].
  - destruct (IH b) as [->|Hab]; constructor; congruence.
  - constructor. congruence.
Qed.

Lemma str_eqb_refl a : str_eqb a a = true.
Proof. now destruct (str_eqb_spec a a). Qed.

Lemma group_of_append label item grouped : forall key,
  group_of key (append_to_group label item grouped)
  = if str_eqb label key then group_of key grouped ++ [item]
    else group_of key grouped.
Proof.
  induction grouped as [|[k items] rest IH]; intros key;
    cbn [append_to_group group_of].
  - now destruct (str_eqb label key).
  - destruct (str_eqb_spec k label) as [->|Hk]; cbn [group_of].
    + now destruct (str_eqb label key).
    + destruct (str_eqb_spec k key) as [->|Hkey]; [|apply IH].
      destruct (str_eqb_spec label key); congruence.
Qed.

Lemma keys_of_append label item grouped :
  map fst (append_to_group label item grouped)
  = if existsb (fun key => str_eqb key label) (map fst grouped)
    then map fst grouped
    else map fst grouped ++ [label].
Proof.
  induction grouped as [|[k items] rest IH];
    cbn [append_to_group map fst existsb app]; [reflexivity|].
  destruct (str_eqb k label); cbn [map fst orb]; [reflexivity|].
  rewrite IH. now destruct (existsb _ (map fst rest)).
Qed.

Lemma NoDup_keys_append label item grouped :
  NoDup (map fst grouped) ->
  NoDup (map fst (append_to_group label item grouped)).
Proof.
  intros H. rewrite keys_of_append.
  destruct (existsb _ (map fst grouped)) eqn:E; [exact H|].
  apply NoDup_app; [exact H|repeat constructor; intros []|].
  intros key Hkey [<-|[]].
  assert (existsb (fun k => str_eqb k label) (map fst grouped) = true)
    by (apply existsb_exists; exists label; split;
        [exact Hkey|apply str_eqb_refl]).
  congruence.
Qed.

Lemma nonempty_groups_append label item grouped :
  (forall key items, In (key, items) grouped -> items <> []) ->
  forall key items,
    In (key, items) (append_to_group label item grouped) -> items <> [].
Proof.
  induction grouped as [|[k its] rest IH]; intros H key items;
    cbn [append_to_group].
  - intros [[= <- <-]|[]]. discriminate.
  - destruct (str_eqb k label).
    + intros [[= <- <-]|Hin].
      * now destruct its.
      * apply (H key). now right.
    + intros [[= <- <-]|Hin].
      * apply (H k). now left.
      * apply IH with key; [|exact Hin].
        intros k' i' Hk'. apply (H k'). now right.
Qed.

Lemma format_timestamp_label_returns today timestamp : (30 < today)%Z ->
  exists label, format_timestamp_label today timestamp = Return label.
Proof.
  intros Htoday. unfold format_timestamp_label.
  destruct (parse_timestamp timestamp) as [t|]; [|eauto].
  rewrite (label_of_days_ago _ _ Htoday). eauto.
Qed.

Lemma group_conversations_spec today past : (30 < today)%Z ->
  forall grouped,
    NoDup (map fst grouped) ->
    (forall key items, In (key, items) grouped -> items <> []) ->
    exists result,
      group_conversations today past grouped = Some result
      /\ NoDup (map fst result)
      /\ (forall key items, In (key, items) result -> items <> [])
      /\ forall label,
           group_of label result
           = group_of label grouped
             ++ map fst (filter (labelled today label) past).
Proof.
  intros Htoday. induction past as [|[[id topic] ts] past IH];
    intros grouped Hnd Hne; cbn [group_conversations filter map].
  - exists grouped. repeat split; try assumption.
    intros label. now rewrite app_nil_r.
  - destruct (format_timestamp_label_returns today ts Htoday)
      as (label & Hlabel).
    rewrite Hlabel.
    destruct (IH (append_to_group label (id, topic) grouped)
                (NoDup_keys_append _ _ _ Hnd)
                (nonempty_groups_append _ _ _ Hne))
      as (result & Hres & Hnd' & Hne' & Hin).
    exists result. repeat split; try assumption.
    intros key. rewrite Hin, group_of_append.
    unfold labelled. cbn [snd]. rewrite Hlabel.
    destruct (str_eqb label key); cbn [map fst app]; [|reflexivity].
    now rewrite <- app_assoc.
Qed.

(** X11: the loop of the sidebar sorts the conversations into groups without
    losing or repeating any: each label is a key at most once, no group is
    empty, and the group of a label holds the [(id, topic)] pairs of exactly
    the conversations that get this label, in the order of
    [past_conversations]. *)
Theorem conversations_grouped_by_label (today : date)
  (past_conversations : list (Z * str * value)) :
  (30 < today)%Z ->
  exists grouped,
    group_conversations today past_conversations [] = Some grouped
    /\ NoDup (map fst grouped)
    /\ (forall label items, In (label, items) grouped -> items <> [])
    /\ forall label,
         group_of label grouped
         = map fst (filter (labelled today label) past_conversations).
Proof.
  intros Htoday.
  destruct (group_conversations_spec today past_conversations Htoday []
              (NoDup_nil _)) as (grouped & Hres & Hnd & Hne & Hin).
  - intros key items [].
  - exists grouped. repeat split; try assumption.
Qed.

Lemma conversations_grouped_by_label_witness :
  exists grouped,
    group_conversations 738955%Z
      [(3%Z, lit "sales", Str (lit "2024-03-10 09:00:00"));
       (2%Z, lit "costs", Str (lit "2024-03-09 18:30:00"));
       (1%Z, lit "users", Str (lit "2024-03-10 07:15:00"))] []
    = Some grouped
    /\ NoDup (map fst grouped)
    /\ (forall label items, In (label, items) grouped -> items <> [])
    /\ forall label,
         group_of label grouped
         = map fst (filter (labelled 738955%Z label)
             [(3%Z, lit "sales", Str (lit "2024-03-10 09:00:00"));
              (2%Z, lit "costs", Str (lit "2024-03-09 18:30:00"));
              (1%Z, lit "users", Str (lit "2024-03-10 07:15:00"))]).
Proof.
  apply (conversations_grouped_by_label 738955%Z). reflexivity.
Defined.

Example sidebar_groups :
  group_conversations 738955%Z
    [(3%Z, lit "sales", Str (lit "2024-03-10 09:00:00"));
     (2%Z, lit "costs", Str (lit "2024-03-09 18:30:00"));
     (1%Z, lit "users", Str (lit "2024-03-10 07:15:00"))] []
  = Some [(lit "Today", [(3%Z, lit "sales"); (1%Z, lit "users")]);
          (lit "Yesterday", [(2%Z, lit "costs")])].
Proof. vm_compute. reflexivity. Qed.

(** * The queries and table references sent to BigQuery *)

Lemma run_Cats_Lit w : w <> [] -> forall s c k,
  run (Cats (map Lit w)) s c k
  = if startswith w s then k (skipn (length w) s) c else None.
Proof.
  induction w as [|a [|b w] IH]; intros Hw s c k; [congruence| |].
  - cbn [map Cats run startswith length skipn].
    destruct s as [|x s]; [reflexivity|].
    rewrite (Ascii.eqb_sym x a). now destruct (Ascii.eqb a x).
  - change (Cats (map Lit (a :: b :: w)))
      with (Cat (Lit a) (Cats (map Lit (b :: w)))).
    rewrite run_Cat. cbn [run]. destruct s as [|x s]; [reflexivity|].
    cbn [startswith length skipn]. rewrite (Ascii.eqb_sym x a).
    destruct (Ascii.eqb a x); [|reflexivity].
    rewrite IH by discriminate. reflexivity.
Qed.

Lemma run_sql_prefix r s c k :
  run (Cat (Word "```sql") r) s c k
  = if startswith (lit "```sql") s then run r (skipn 6 s) c k else None.
Proof.
  rewrite run_Cat. unfold Word. rewrite run_Cats_Lit by discriminate.
  reflexivity.
Qed.

(** A greedy [.*] gives back as little as it can: when what follows fails
    on every shorter rest and matches on [s], the repetition stops in front
    of [s]. *)
Lemma repeat_greedy_dot_stop s : forall fuel c k,
  length s <= fuel ->
  (forall n, 0 < n -> k (skipn n s) c = None) ->
  repeat_loop (run (dot true)) true fuel s c k = k s c.
Proof.
  induction s as [|x s IH]; intros fuel c k Hfuel Hk.
  - destruct fuel; reflexivity.
  - destruct fuel as [|f]; [cbn [length] in Hfuel; lia|].
    cbn [repeat_loop]. rewrite run_dot_cons.
    replace (length s <? length (x :: s)) with true
      by (symmetry; apply Nat.ltb_lt; cbn [length]; lia).
    rewrite IH.
    + pose proof (Hk 1 ltac:(lia)) as H1. cbn [skipn] in H1. now rewrite H1.
    + cbn [length] in Hfuel. lia.
    + intros n Hn. apply (Hk (S n)). lia.
Qed.

Lemma repeat_greedy_dot_last l : forall s fuel c k res,
  length (l ++ s) <= fuel ->
  (forall n, 0 < n -> k (skipn n s) c = None) ->
  k s c = Some res ->
  repeat_loop (run (dot true)) true fuel (l ++ s) c k = Some res.
Proof.
  induction l as [|x l IH]; intros s fuel c k res Hfuel Hshort Hk.
  - cbn [app] in *. now rewrite repeat_greedy_dot_stop.
  - destruct fuel as [|f]; [cbn [length app] in Hfuel; lia|].
    cbn [repeat_loop app]. rewrite run_dot_cons.
    replace (length (l ++ s) <? length (x :: l ++ s)) with true
      by (symmetry; apply Nat.ltb_lt; cbn [length]; lia).
    rewrite (IH s f c k res); [reflexivity| |assumption..].
    cbn [length app] in Hfuel. lia.
Qed.

Lemma match_sql_fence body tail :
  tail = [] \/ tail = [LF] ->
  match_at sql_fence_pattern (lit "```sql" ++ body ++ lit "```" ++ tail)
  = Some (tail, [(1, body)]).
Proof.
  intros Htail. unfold match_at.
  change sql_fence_pattern with
    (Cat (Word "```sql")
       (Cat (Group 1 (Repeat true (dot true))) (Cat (Word "```") EndAnchor))).
  rewrite run_sql_prefix, startswith_app.
  change (skipn 6 (lit "```sql" ++ ?t)) with t.
  rewrite run_Cat, run_Group. cbn [run].
  apply repeat_greedy_dot_last.
  - reflexivity.
  - intros n Hn. rewrite run_Word_fence.
    destruct Htail as [-> | ->];
      destruct n as [|[|[|[|[|n]]]]]; try lia; reflexivity.
  - rewrite run_Word_fence, startswith_app.
    change (skipn 3 (lit "```" ++ tail)) with tail.
    replace (at_end tail) with true by (now destruct Htail as [-> | ->]).
    now rewrite firstn_app_exact.
Qed.

Lemma sql_fence_removed_aux (body : str) :
  remove_sql_fence (lit "```sql" ++ body ++ lit "```") = body
  /\ remove_sql_fence (lit "```sql" ++ body ++ lit "```" ++ [LF])
     = body ++ [LF].
Proof.
  unfold remove_sql_fence. split.
  - replace (lit "```sql" ++ body ++ lit "```")
      with (lit "```sql" ++ body ++ lit "```" ++ [])
      by now rewrite app_nil_r.
    rewrite match_sql_fence by now left. cbn [group Nat.eqb].
    apply app_nil_r.
  - rewrite match_sql_fence by now right. reflexivity.
Qed.

(** X12: a query that the model wrapped in a fence [```sql ... ```] is sent
    without the fence, whatever stands between the two: the text between
    the opening word and the last three backticks, which may be followed by
    one final line feed (it is kept). *)
Theorem sql_fence_removed (body : str) :
  remove_sql_fence (lit "```sql" ++ body ++ lit "```") = body
  /\ remove_sql_fence (lit "```sql" ++ body ++ lit "```" ++ [LF])
     = body ++ [LF].
Proof. exact (sql_fence_removed_aux body). Qed.

(** X13: a query that does not start with [```sql] (in lower case, at its
    very first character) is sent as it is. *)
Theorem query_without_sql_fence_unchanged (query : str) :
  startswith (lit "```sql") query = false ->
  remove_sql_fence query = query.
Proof.
  intros H. unfold remove_sql_fence, match_at.
  change sql_fence_pattern with
    (Cat (Word "```sql")
       (Cat (Group 1 (Repeat true (dot true))) (Cat (Word "```") EndAnchor))).
  now rewrite run_sql_prefix, H.
Qed.

Lemma query_without_sql_fence_unchanged_witness :
  remove_sql_fence (unlines [" ```sql"; "select 1"; "```"])
  = unlines [" ```sql"; "select 1"; "```"]
  /\ remove_sql_fence (unlines ["```SQL"; "select 1"; "```"])
     = unlines ["```SQL"; "select 1"; "```"].
Proof.
  split.
  - apply (query_without_sql_fence_unchanged
             (unlines [" ```sql"; "select 1"; "```"])). reflexivity.
  - apply (query_without_sql_fence_unchanged
             (unlines ["```SQL"; "select 1"; "```"])). reflexivity.
Defined.

Lemma strip_cons c t : isspace c = false -> strip (c :: t) = c :: rstrip t.
Proof.
  intros H. unfold strip. cbn [lstrip]. rewrite H. now apply rstrip_cons.
Qed.

Lemma fenced_query_is_not_ddl t : is_ddl ("`"%char :: t) = false.
Proof.
  unfold is_ddl. cbv zeta. rewrite strip_cons by reflexivity. reflexivity.
Qed.

(** X14: the test for a [create] or [alter] statement looks at the query
    before its fence is removed.  So for a fenced query and a destination
    table the destination is always set and truncated on write, also when
    the statement inside the fence is a [CREATE]; the text sent is the
    inside of the fence. *)
Theorem fenced_query_gets_destination
  (project_id dataset_id body table : str) :
  table <> [] ->
  query_job project_id dataset_id (lit "```sql" ++ body ++ lit "```")
    (Some table)
  = (body,
     mk_job_config
       (Some (project_id ++ "."%char :: dataset_id ++ "."%char :: table))
       true).
Proof.
  intros Htable. unfold query_job.
  rewrite (proj1 (sql_fence_removed_aux body)).
  change (lit "```sql" ++ body ++ lit "```")
    with ("`"%char :: lit "``sql" ++ body ++ lit "```").
  rewrite fenced_query_is_not_ddl. now destruct table.
Qed.

Lemma fenced_query_gets_destination_witness :
  query_job (lit "p") (lit "d")
    (lit "```sql" ++ unlines [""; "CREATE TABLE t AS SELECT 1"; ""]
     ++ lit "```") (Some (lit "out"))
  = (unlines [""; "CREATE TABLE t AS SELECT 1"; ""],
     mk_job_config (Some (lit "p.d.out")) true)
  /\ query_job (lit "p") (lit "d") (lit "CREATE TABLE t AS SELECT 1")
       (Some (lit "out"))
     = (lit "CREATE TABLE t AS SELECT 1", mk_job_config None false).
Proof.
  split.
  - apply (fenced_query_gets_destination (lit "p") (lit "d")
             (unlines [""; "CREATE TABLE t AS SELECT 1"; ""]) (lit "out")).
    discriminate.
  - vm_compute. reflexivity.
Defined.

Lemma count_char_app ch a b :
  count_char ch (a ++ b) = count_char ch a + count_char ch b.
Proof. unfold count_char. now rewrite filter_app, length_app. Qed.

Lemma count_char_cons ch x s :
  count_char ch (x :: s)
  = (if Ascii.eqb ch x then 1 else 0) + count_char ch s.
Proof. unfold count_char. cbn [filter]. now destruct (Ascii.eqb ch x). Qed.

Lemma existsb_count_char ch s :
  existsb (Ascii.eqb ch) s = negb (count_char ch s =? 0).
Proof.
  induction s as [|x s IH]; [reflexivity|].
  cbn [existsb]. rewrite count_char_cons, IH.
  now destruct (Ascii.eqb ch x).
Qed.

(** X15: the table reference that goes to the client always has at least
    two dots and ends with the table id as it was given; a reference that is
    already qualified is left alone, so qualifying twice changes nothing. *)
Theorem table_ref_qualified (project_id dataset_id table_id : str) :
  2 <= count_char "." (table_ref_of project_id dataset_id table_id)
  /\ (exists prefix,
        table_ref_of project_id dataset_id table_id = prefix ++ table_id)
  /\ (2 <= count_char "." table_id ->
      table_ref_of project_id dataset_id table_id = table_id)
  /\ table_ref_of project_id dataset_id
       (table_ref_of project_id dataset_id table_id)
     = table_ref_of project_id dataset_id table_id.
Proof.
  assert (Hkeep : forall t, 2 <= count_char "." t ->
            table_ref_of project_id dataset_id t = t).
  { intros t Ht. unfold table_ref_of. rewrite existsb_count_char.
    destruct (Nat.eqb_spec (count_char "." t) 0); [lia|]. cbn [negb].
    destruct (Nat.eqb_spec (count_char "." t) 1); [lia|reflexivity]. }
  assert (Hcount :
    2 <= count_char "." (table_ref_of project_id dataset_id table_id)).
  { unfold table_ref_of. rewrite existsb_count_char.
    destruct (Nat.eqb_spec (count_char "." table_id) 0); cbn [negb].
    - rewrite count_char_app, count_char_cons, count_char_app, count_char_cons.
      rewrite !Ascii.eqb_refl. lia.
    - destruct (Nat.eqb_spec (count_char "." table_id) 1); [|lia].
      rewrite count_char_app, count_char_cons, Ascii.eqb_refl. lia. }
  split; [exact Hcount|]. split; [|split; [apply Hkeep|now apply Hkeep]].
  unfold table_ref_of.
  destruct (negb (existsb (Ascii.eqb ".") table_id)).
  - exists (project_id ++ "."%char :: dataset_id ++ ["."%char]).
    rewrite <- !app_assoc. cbn [app]. now rewrite <- app_assoc.
  - destruct (count_char "." table_id =? 1).
    + exists (project_id ++ ["."%char]). now rewrite <- app_assoc.
    + now exists [].
Qed.

Lemma table_ref_qualified_witness :
  table_ref_of (lit "proj") (lit "sales") (lit "hd.us_census") = lit "proj.hd.us_census"
  /\ table_ref_of (lit "proj") (lit "sales") (lit "proj.hd.us_census")
     = lit "proj.hd.us_census".
Proof.
  split; [reflexivity|].
  apply (proj1 (proj2 (proj2 (table_ref_qualified (lit "proj") (lit "sales")
                                 (lit "proj.hd.us_census"))))).
  vm_compute. lia.
Defined.

(** X16: what the schema tool answers for a table follows what the client
    does.  When the client raises (a table that does not exist, for one),
    [get_table_schema] turns the exception into a string and the tool
    answers ["Schema information: error: ..."] with the text of the
    exception; the answer ["Table `...` not found."] is given exactly when
    the client returns a table without any column. *)
Theorem schema_tool_answers (project_id dataset_id : str)
  (get_table : str -> raising (list SchemaField))
  (to_markdown : list schema_row -> raising str) (table_id : str) :
  (forall e,
     get_table (table_ref_of project_id dataset_id table_id) = Raises e ->
     fetch_bigquery_schema project_id dataset_id get_table to_markdown table_id
     = lit "Schema information: error: " ++ e)
  /\ (fetch_bigquery_schema project_id dataset_id get_table to_markdown
        table_id
      = lit "Table `" ++ table_id ++ lit "` not found."
      <-> get_table (table_ref_of project_id dataset_id table_id)
          = Returns []).
Proof.
  unfold fetch_bigquery_schema, get_table_schema.
  destruct (get_table (table_ref_of project_id dataset_id table_id))
    as [schema|e0].
  - split; [discriminate|].
    destruct schema as [|field schema]; cbn [map].
    + split; reflexivity.
    + split; [|discriminate].
      destruct (to_markdown _); cbn [lit list_ascii_of_string app];
        discriminate.
  - split.
    + intros e [= ->]. reflexivity.
    + split; [|discriminate].
      cbn [lit list_ascii_of_string app]. discriminate.
Qed.

Lemma schema_tool_answers_witness :
  fetch_bigquery_schema (lit "p") (lit "d")
    (fun table_ref => Raises (lit "404 Not found: Table " ++ table_ref))
    (fun _ => Returns [])
    (lit "orders")
  = lit "Schema information: error: 404 Not found: Table p.d.orders".
Proof.
  apply (proj1 (schema_tool_answers (lit "p") (lit "d")
                  (fun table_ref =>
                     Raises (lit "404 Not found: Table " ++ table_ref))
                  (fun _ => Returns []) (lit "orders"))
               (lit "404 Not found: Table p.d.orders")).
  reflexivity.
Defined.

(** * The store of conversations *)

Local Open Scope Z_scope.

Lemma fold_max_ge (l : list Z) (z : Z) :
  z <= fold_right Z.max z l /\ forall x, In x l -> x <= fold_right Z.max z l.
Proof.
  induction l as [|a l [IH1 IH2]]; cbn [fold_right].
  - split; [lia|intros x []].
  - split; [lia|]. intros x [<-|H]; [lia|]. specialize (IH2 x H). lia.
Qed.

Lemma next_rowid_fresh {A} (id_of : A -> Z) (t : table A) :
  sequence t < next_rowid id_of t
  /\ forall row, In row (table_rows t) -> id_of row < next_rowid id_of t.
Proof.
  unfold next_rowid.
  destruct (fold_max_ge (map id_of (table_rows t)) (sequence t)) as [H1 H2].
  split; [lia|]. intros row Hrow.
  specialize (H2 (id_of row) (in_map id_of _ _ Hrow)). lia.
Qed.

Lemma insert_row_spec {A} (id_of : A -> Z) (row : Z -> A) (t t' : table A) :
  insert_row id_of row t = Some t' ->
  t' = mk_table (table_rows t ++ [row (next_rowid id_of t)])
                (next_rowid id_of t).
Proof.
  unfold insert_row. destruct (next_rowid id_of t <=? max_rowid); [|discriminate].
  now intros [= <-].
Qed.

Lemma insert_row_well_keyed {A} (id_of : A -> Z) (row : Z -> A)
  (t t' : table A) :
  (forall id, id_of (row id) = id) ->
  insert_row id_of row t = Some t' ->
  well_keyed id_of t -> well_keyed id_of t'.
Proof.
  intros Hid Hins [Hnd Hle]. apply insert_row_spec in Hins. subst t'.
  destruct (next_rowid_fresh id_of t) as [Hseq Hfresh].
  unfold well_keyed. cbn [table_rows sequence]. split.
  - rewrite map_app. cbn [map]. rewrite Hid.
    apply NoDup_app; [exact Hnd|repeat constructor; intros []|].
    intros x Hx [<-|[]]. apply in_map_iff in Hx.
    destruct Hx as (r & Hr & Hin). specialize (Hfresh r Hin). lia.
  - intros r Hr. apply in_app_or in Hr. destruct Hr as [Hr|[<-|[]]].
    + specialize (Hfresh r Hr). lia.
    + rewrite Hid. lia.
Qed.

Lemma delete_rows_keys {A} (id_of : A -> Z) (condition : A -> bool)
  (t : table A) :
  NoDup (map id_of (table_rows t)) ->
  NoDup (map id_of (table_rows (delete_rows condition t))).
Proof.
  unfold delete_rows. cbn [table_rows]. generalize (table_rows t).
  intros stored.
  induction stored as [|row stored IH]; cbn [map filter]; intros Hkeys;
    [exact Hkeys|].
  apply NoDup_cons_iff in Hkeys. destruct Hkeys as [Hnew Hkeys].
  destruct (condition row); cbn [negb map]; [now apply IH|].
  apply NoDup_cons; [|now apply IH].
  intros Hin. apply Hnew. apply in_map_iff in Hin.
  destruct Hin as (r & <- & Hr). apply in_map. apply filter_In in Hr. tauto.
Qed.

Lemma delete_rows_well_keyed {A} (id_of : A -> Z) (condition : A -> bool)
  (t : table A) :
  well_keyed id_of t -> well_keyed id_of (delete_rows condition t).
Proof.
  intros [Hkeys Hle]. split; [now apply delete_rows_keys|].
  intros r Hr. cbn [delete_rows table_rows sequence] in *.
  apply filter_In in Hr. now apply Hle.
Qed.

Lemma empty_table_well_keyed {A} (id_of : A -> Z) :
  well_keyed id_of (mk_table [] 0).
Proof. split; [constructor|intros row []]. Qed.

Lemma call_well_formed db op : well_formed db -> well_formed (fst (call db op)).
Proof.
  intros H. pose proof H as [Hc Hm].
  destruct op as [|now topic|now cid sender message|cid]; cbn [call].
  - cbn [fst]. unfold create_db_if_not_there.
    split; cbn [conversations messages].
    + destruct (conversations db) as [t|] eqn:E; intros t' [= <-];
        [now apply Hc|apply empty_table_well_keyed].
    + destruct (messages db) as [t|] eqn:E; intros t' [= <-];
        [now apply Hm|apply empty_table_well_keyed].
  - unfold save_conversation.
    destruct (conversations db) as [t|] eqn:E; cbn [fst]; [|exact H].
    destruct (insert_row _ _ t) as [t1|] eqn:Ei; cbn [fst]; [|exact H].
    split; cbn [conversations messages]; [|exact Hm].
    intros t' [= <-].
    refine (insert_row_well_keyed conv_id _ t t1 _ Ei _);
      [reflexivity|now apply Hc].
  - unfold save_message.
    destruct (messages db) as [t|] eqn:E; cbn [fst snd]; [|exact H].
    destruct (insert_row _ _ t) as [t1|] eqn:Ei; cbn [fst snd]; [|exact H].
    split; cbn [conversations messages]; [exact Hc|].
    intros t' [= <-].
    refine (insert_row_well_keyed msg_id _ t t1 _ Ei _);
      [reflexivity|now apply Hm].
  - unfold delete_conversation.
    destruct (messages db) as [m|] eqn:Em; [|exact H].
    destruct (conversations db) as [c|] eqn:Ec; cbn [fst snd]; [|exact H].
    split; cbn [conversations messages]; intros t' [= <-];
      apply delete_rows_well_keyed; [now apply Hc|now apply Hm].
Qed.

(** X17: the keys stay keys.  A database that [create_db_if_not_there] made
    from an empty file has, in both tables, pairwise distinct keys that are
    not above the sequence of the table, and every call of
    [save_conversation], [save_message], [delete_conversation] or
    [create_db_if_not_there] keeps this so. *)
Theorem keys_stay_unique (db : database) (ops : list operation) :
  well_formed db -> well_formed (fst (calls db ops)).
Proof.
  revert db. induction ops as [|op ops IH]; intros db H; cbn [calls];
    [exact H|].
  pose proof (call_well_formed db op H) as H1.
  destruct (call db op) as [db1 ids1]. cbn [fst] in H1.
  specialize (IH db1 H1). destruct (calls db1 ops) as [db2 ids2]. exact IH.
Qed.

Lemma keys_stay_unique_witness :
  well_formed
    (fst (calls (mk_database None None)
            [CreateDb; SaveConversation (lit "2024-03-10 09:00:00") (lit "a");
             SaveMessage (lit "2024-03-10 09:00:05") (Some 1) (lit "User")
               (lit "hi");
             DeleteConversation (Some 1);
             SaveConversation (lit "2024-03-10 09:01:00") (lit "b")])).
Proof.
  apply keys_stay_unique. split; discriminate.
Defined.

Lemma call_sequence db op :
  sequence_of db <= sequence_of (fst (call db op))
  /\ forall id, In id (snd (call db op)) ->
       snd (call db op) = [id]
       /\ sequence_of db < id /\ id = sequence_of (fst (call db op)).
Proof.
  destruct op as [|now topic|now cid sender message|cid]; cbn [call].
  - cbn [fst snd]. split; [|intros id []].
    unfold sequence_of, create_db_if_not_there. cbn [conversations].
    destruct (conversations db); cbn [sequence]; lia.
  - unfold save_conversation, sequence_of.
    destruct (conversations db) as [t|] eqn:E; cbn [fst snd];
      [|rewrite E; split; [lia|intros id []]].
    destruct (insert_row _ _ t) as [t1|] eqn:Ei; cbn [fst snd];
      [|rewrite E; split; [lia|intros id []]].
    apply insert_row_spec in Ei. subst t1. cbn [conversations sequence].
    destruct (next_rowid_fresh conv_id t) as [Hseq _].
    split; [lia|]. intros id [<-|[]]. repeat split. exact Hseq.
  - cbn [fst snd]. split; [|intros id []].
    unfold save_message, sequence_of.
    destruct (messages db) as [t|]; cbn [snd]; [|lia].
    destruct (insert_row _ _ t); cbn [snd conversations]; lia.
  - cbn [fst snd]. split; [|intros id []].
    unfold delete_conversation, sequence_of.
    destruct (messages db) as [m|]; [|cbn [snd]; lia].
    destruct (conversations db) as [c|] eqn:Ec; cbn [snd conversations];
      [|rewrite Ec; lia].
    cbn [delete_rows sequence]. lia.
Qed.

Lemma calls_sequence ops : forall db,
  sequence_of db <= sequence_of (fst (calls db ops))
  /\ StronglySorted Z.lt (snd (calls db ops))
  /\ forall id, In id (snd (calls db ops)) ->
       sequence_of db < id <= sequence_of (fst (calls db ops)).
Proof.
  induction ops as [|op ops IH]; intros db; cbn [calls].
  - cbn [fst snd]. split; [lia|]. split; [constructor|intros id []].
  - destruct (call_sequence db op) as [H1 H2].
    destruct (call db op) as [db1 ids1]. cbn [fst snd] in H1, H2.
    destruct (IH db1) as (I1 & I2 & I3).
    destruct (calls db1 ops) as [db2 ids2]. cbn [fst snd] in *.
    split; [lia|]. destruct ids1 as [|id1 ids1].
    + cbn [app]. split; [exact I2|]. intros id Hid.
      specialize (I3 id Hid). lia.
    + destruct (H2 id1 (or_introl eq_refl)) as ([= ->] & Hlt & Heq).
      cbn [app]. split.
      * constructor; [exact I2|]. apply Forall_forall. intros id Hid.
        specialize (I3 id Hid). lia.
      * intros id [<-|Hid]; [lia|]. specialize (I3 id Hid). lia.
Qed.

(** X18: the keys that [save_conversation] returns are never used twice.
    Over any series of calls on a database whose keys are in order, the
    returned keys are strictly increasing, and each of them is above the
    key of every conversation that the database held at the start, also
    of those that [delete_conversation] removed on the way. *)
Theorem conversation_ids_never_reused (db : database) (ops : list operation) :
  well_formed db ->
  StronglySorted Z.lt (snd (calls db ops))
  /\ forall id t row,
       In id (snd (calls db ops)) ->
       conversations db = Some t -> In row (table_rows t) ->
       conv_id row < id.
Proof.
  intros [Hc _]. destruct (calls_sequence ops db) as (_ & H2 & H3).
  split; [exact H2|]. intros id t row Hid Ht Hrow.
  specialize (H3 id Hid). unfold sequence_of in H3 at 1. rewrite Ht in H3.
  destruct (Hc t Ht) as [_ Hle]. specialize (Hle row Hrow). lia.
Qed.

Lemma conversation_ids_never_reused_witness :
  let db :=
    mk_database
      (Some (mk_table [mk_conversation 1 (lit "a") (lit "2024-03-10 09:00:00");
                       mk_conversation 2 (lit "b") (lit "2024-03-10 09:05:00")]
                      2))
      (Some (mk_table [] 0)) in
  let ops :=
    [DeleteConversation (Some 2);
     SaveConversation (lit "2024-03-10 09:10:00") (lit "c");
     DeleteConversation (Some 3);
     SaveConversation (lit "2024-03-10 09:20:00") (lit "d")] in
  snd (calls db ops) = [3; 4]
  /\ StronglySorted Z.lt (snd (calls db ops))
  /\ forall id t row,
       In id (snd (calls db ops)) ->
       conversations db = Some t -> In row (table_rows t) ->
       conv_id row < id.
Proof.
  intros db ops. split; [vm_compute; reflexivity|].
  apply (conversation_ids_never_reused db ops).
  split; intros t [= <-]; (split; [|cbn [table_rows sequence]]).
  - cbn [table_rows map conv_id]. repeat constructor; cbn [In]; intuition lia.
  - intros row [<-|[<-|[]]]; cbn [conv_id]; lia.
  - constructor.
  - intros row [].
Defined.

Lemma Permutation_filter_compat {A} (p : A -> bool) (l l' : list A) :
  Permutation l l' -> Permutation (filter p l) (filter p l').
Proof.
  induction 1 as [|x l l' _ IH|x y l|l l' l'' _ IH1 _ IH2]; cbn [filter].
  - constructor.
  - destruct (p x); [now constructor|exact IH].
  - destruct (p x), (p y); try apply perm_swap; apply Permutation_refl.
  - eapply Permutation_trans; eassumption.
Qed.

Lemma filter_twice {A} (p q : A -> bool) (l : list A) :
  (forall x, In x l -> p x = true -> q x = true) ->
  filter p (filter q l) = filter p l.
Proof.
  induction l as [|a l IH]; intros H; cbn [filter]; [reflexivity|].
  assert (IH' : filter p (filter q l) = filter p l)
    by (apply IH; intros x Hx; apply H; now right).
  destruct (q a) eqn:Eq; cbn [filter].
  - now rewrite IH'.
  - destruct (p a) eqn:Ep; [|exact IH'].
    rewrite (H a (or_introl eq_refl) Ep) in Eq. discriminate.
Qed.

Lemma filter_none {A} (p : A -> bool) (l : list A) :
  (forall x, In x l -> p x = false) -> filter p l = [].
Proof.
  induction l as [|a l IH]; intros H; cbn [filter]; [reflexivity|].
  rewrite (H a (or_introl eq_refl)). apply IH. intros x Hx. apply H. now right.
Qed.

Lemma filter_all {A} (p : A -> bool) (l : list A) :
  (forall x, In x l -> p x = true) -> filter p l = l.
Proof.
  induction l as [|a l IH]; intros H; cbn [filter]; [reflexivity|].
  rewrite (H a (or_introl eq_refl)). f_equal. apply IH. intros x Hx.
  apply H. now right.
Qed.

Lemma filter_of_map {A B} (f : A -> B) (p : B -> bool) (l : list A) :
  filter p (map f l) = map f (filter (fun x => p (f x)) l).
Proof.
  induction l as [|a l IH]; cbn [map filter]; [reflexivity|].
  destruct (p (f a)); cbn [map]; now rewrite IH.
Qed.

Lemma selected_nil {A} (ordered : A -> A -> Prop) (answer : list A) :
  selected [] ordered answer -> answer = [].
Proof. intros [H _]. now apply Permutation_nil. Qed.

Lemma column_is_other (other : option Z) (cid : Z) :
  other <> Some cid -> column_is other (Some cid) = false.
Proof.
  intros H. destruct other as [p|]; cbn [column_is id_is]; [|reflexivity].
  destruct (Z.eqb_spec cid p); congruence.
Qed.

Lemma column_is_some (cid : Z) (column : option Z) :
  column_is (Some cid) column = true <-> column = Some cid.
Proof.
  destruct column as [id|]; cbn [column_is id_is].
  - destruct (Z.eqb_spec id cid); split; congruence.
  - split; discriminate.
Qed.

(** X19: a saved message is read back.  After [save_message] for the
    conversation [cid] the messages that [get_messages_by_conversation]
    gives for [cid] are those that it gave before and the pair of the new
    sender and message, and for every other conversation it gives what it
    gave before. *)
Theorem saved_message_is_read_back (db db' : database) (now : str) (cid : Z)
  (sender message : str) :
  save_message db now (Some cid) sender message = (Returns tt, db') ->
  (forall before answer,
      get_messages_by_conversation db (Some cid) before ->
      get_messages_by_conversation db' (Some cid) answer ->
      Permutation ((sender, message) :: before) answer)
  /\ (forall other answer,
        other <> Some cid ->
        get_messages_by_conversation db' other answer
        <-> get_messages_by_conversation db other answer).
Proof.
  unfold save_message. destruct (messages db) as [t|] eqn:Em; [|discriminate].
  destruct (insert_row _ _ t) as [t1|] eqn:Ei; [|discriminate].
  intros [= <-]. apply insert_row_spec in Ei. subst t1.
  unfold get_messages_by_conversation. rewrite Em.
  cbn [messages table_rows]. split.
  - intros before answer (f1 & [P1 _] & ->) (f2 & [P2 _] & ->).
    rewrite filter_app in P2. cbn [filter msg_conversation_id] in P2.
    rewrite (proj2 (column_is_some cid (Some cid)) eq_refl) in P2.
    set (new := mk_message _ _ _ _ _) in P2.
    change (Permutation
              (map (fun row => (msg_sender row, msg_message row)) (new :: f1))
              (map (fun row => (msg_sender row, msg_message row)) f2)).
    apply Permutation_map.
    eapply Permutation_trans; [|exact P2].
    eapply Permutation_trans; [|apply Permutation_cons_append].
    constructor. now apply Permutation_sym.
  - intros other answer Hother. rewrite filter_app.
    cbn [filter msg_conversation_id].
    rewrite (column_is_other other cid Hother), app_nil_r. reflexivity.
Qed.

Lemma saved_message_is_read_back_witness :
  let db :=
    mk_database
      (Some (mk_table [mk_conversation 1 (lit "a") (lit "2024-03-10 09:00:00")]
                      1))
      (Some (mk_table [mk_message 1 (Some 1) (lit "2024-03-10 09:00:05")
                         (lit "User") (lit "hi")] 1)) in
  let db' :=
    snd (save_message db (lit "2024-03-10 09:00:07") (Some 1) (lit "Bot")
           (lit "hello")) in
  (forall before answer,
      get_messages_by_conversation db (Some 1) before ->
      get_messages_by_conversation db' (Some 1) answer ->
      Permutation ((lit "Bot", lit "hello") :: before) answer)
  /\ (forall other answer,
        other <> Some 1 ->
        get_messages_by_conversation db' other answer
        <-> get_messages_by_conversation db other answer).
Proof.
  intros db db'.
  apply (saved_message_is_read_back db db' (lit "2024-03-10 09:00:07") 1
           (lit "Bot") (lit "hello")).
  vm_compute. reflexivity.
Defined.

Lemma NoDup_key_remove {A} (f : A -> Z) (l : list A) (r : A) :
  NoDup (map f l) -> In r l ->
  Permutation l (r :: filter (fun x => negb (f x =? f r)) l).
Proof.
  induction l as [|a l IH]; intros Hnd Hin; [destruct Hin|].
  cbn [map] in Hnd. inversion Hnd as [|x xs Hnotin Hnd']. subst.
  cbn [filter]. destruct Hin as [->|Hin].
  - rewrite Z.eqb_refl. cbn [negb]. constructor.
    rewrite filter_all; [apply Permutation_refl|].
    intros x Hx. destruct (Z.eqb_spec (f x) (f r)) as [E|]; [|reflexivity].
    exfalso. apply Hnotin. rewrite <- E. now apply in_map.
  - destruct (Z.eqb_spec (f a) (f r)) as [E|_]; cbn [negb].
    + exfalso. apply Hnotin. rewrite E. now apply in_map.
    + eapply Permutation_trans; [|apply perm_swap].
      constructor. now apply IH.
Qed.

(** X20: a deleted conversation is gone, and nothing else is.  After
    [delete_conversation(cid)] no message of [cid] is left, the
    conversations that [get_all_conversations] gives are those that it gave
    before without the ones whose key is [cid], and the messages of every
    other conversation are as before. *)
Theorem deleted_conversation_is_gone (db db' : database) (cid : Z) :
  delete_conversation db (Some cid) = (Returns tt, db') ->
  (forall answer,
      get_messages_by_conversation db' (Some cid) answer -> answer = [])
  /\ (forall before answer,
        get_all_conversations db before ->
        get_all_conversations db' answer ->
        Permutation
          (filter (fun row => negb (fst (fst row) =? cid)) before) answer)
  /\ (forall other answer,
        other <> Some cid ->
        get_messages_by_conversation db' other answer
        <-> get_messages_by_conversation db other answer).
Proof.
  unfold delete_conversation.
  destruct (messages db) as [m|] eqn:Em; [|discriminate].
  destruct (conversations db) as [c|] eqn:Ec; [|discriminate].
  intros [= <-].
  unfold get_messages_by_conversation, get_all_conversations.
  rewrite Em, Ec. cbn [messages conversations delete_rows table_rows].
  split; [|split].
  - intros answer (found & Hsel & ->).
    rewrite filter_none in Hsel; [now rewrite (selected_nil _ _ Hsel)|].
    intros x Hx. apply filter_In in Hx. destruct Hx as [_ Hx].
    now destruct (column_is (Some cid) (msg_conversation_id x)).
  - intros before answer (f1 & [P1 _] & ->) (f2 & [P2 _] & ->).
    rewrite filter_of_map. apply Permutation_map. cbn [fst].
    eapply Permutation_trans; [|exact P2].
    apply Permutation_filter_compat. now apply Permutation_sym.
  - intros other answer Hother. rewrite filter_twice; [reflexivity|].
    intros x _ Hx. destruct (msg_conversation_id x) as [id|]; [|discriminate].
    cbn [column_is id_is] in *. destruct other as [p|]; [|discriminate].
    apply Z.eqb_eq in Hx. subst id.
    destruct (Z.eqb_spec p cid); [congruence|reflexivity].
Qed.

Lemma deleted_conversation_is_gone_witness :
  let db :=
    mk_database
      (Some (mk_table [mk_conversation 1 (lit "a") (lit "2024-03-10 09:00:00");
                       mk_conversation 2 (lit "b") (lit "2024-03-10 09:05:00")]
                      2))
      (Some (mk_table [mk_message 1 (Some 1) (lit "2024-03-10 09:00:05")
                         (lit "User") (lit "hi");
                       mk_message 2 (Some 2) (lit "2024-03-10 09:05:05")
                         (lit "User") (lit "ho")] 2)) in
  let db' := snd (delete_conversation db (Some 1)) in
  (forall answer,
      get_messages_by_conversation db' (Some 1) answer -> answer = [])
  /\ (forall before answer,
        get_all_conversations db before ->
        get_all_conversations db' answer ->
        Permutation
          (filter (fun row => negb (fst (fst row) =? 1)) before) answer)
  /\ (forall other answer,
        other <> Some 1 ->
        get_messages_by_conversation db' other answer
        <-> get_messages_by_conversation db other answer).
Proof.
  intros db db'. apply (deleted_conversation_is_gone db db' 1).
  vm_compute. reflexivity.
Defined.

Lemma call_keeps_unlinked db op row t :
  messages db = Some t -> In row (table_rows t) ->
  msg_conversation_id row = None ->
  exists t1, messages (fst (call db op)) = Some t1 /\ In row (table_rows t1).
Proof.
  intros Em Hin Hnull.
  destruct op as [|now topic|now cid sender message|cid]; cbn [call fst].
  - unfold create_db_if_not_there. cbn [messages]. rewrite Em. now exists t.
  - unfold save_conversation. destruct (conversations db) as [c|];
      [destruct (insert_row _ _ c)|]; cbn [fst messages]; now exists t.
  - unfold save_message. rewrite Em.
    destruct (insert_row _ _ t) as [t1|] eqn:Ei; cbn [snd];
      [|now exists t].
    apply insert_row_spec in Ei. subst t1. cbn [messages].
    eexists. split; [reflexivity|]. cbn [table_rows]. apply in_or_app.
    now left.
  - unfold delete_conversation. rewrite Em.
    destruct (conversations db) as [c|]; cbn [snd]; [|now exists t].
    cbn [messages]. eexists. split; [reflexivity|].
    cbn [delete_rows table_rows]. apply filter_In. split; [exact Hin|].
    now rewrite Hnull.
Qed.

Lemma calls_keep_unlinked ops : forall db row t,
  messages db = Some t -> In row (table_rows t) ->
  msg_conversation_id row = None ->
  exists t1, messages (fst (calls db ops)) = Some t1 /\ In row (table_rows t1).
Proof.
  induction ops as [|op ops IH]; intros db row t Em Hin Hnull; cbn [calls].
  - now exists t.
  - destruct (call_keeps_unlinked db op row t Em Hin Hnull) as (t1 & E1 & H1).
    destruct (call db op) as [db1 ids1]. cbn [fst] in E1.
    destruct (IH db1 row t1 E1 H1 Hnull) as (t2 & E2 & H2).
    destruct (calls db1 ops) as [db2 ids2]. now exists t2.
Qed.

(** X21: a message saved without a conversation is kept and never shown.
    When [save_message] is called with [None] as the conversation, the
    message is stored, [get_messages_by_conversation] answers as before for
    every argument, [None] too, and no later series of calls removes the
    row. *)
Theorem message_without_conversation (db db' : database)
  (now sender message : str) :
  save_message db now None sender message = (Returns tt, db') ->
  (forall conversation_id answer,
      get_messages_by_conversation db' conversation_id answer
      <-> get_messages_by_conversation db conversation_id answer)
  /\ exists row,
       msg_sender row = sender /\ msg_message row = message
       /\ forall ops,
            exists t, messages (fst (calls db' ops)) = Some t
                      /\ In row (table_rows t).
Proof.
  unfold save_message. destruct (messages db) as [t|] eqn:Em; [|discriminate].
  destruct (insert_row _ _ t) as [t1|] eqn:Ei; [|discriminate].
  intros [= <-]. apply insert_row_spec in Ei. subst t1. split.
  - intros conversation_id answer. unfold get_messages_by_conversation.
    rewrite Em. cbn [messages table_rows]. rewrite filter_app.
    cbn [filter msg_conversation_id column_is]. now rewrite app_nil_r.
  - eexists. split; [|split]; [..|intros ops;
      eapply (calls_keep_unlinked ops); [reflexivity|..]].
    3: { cbn [table_rows]. apply in_or_app. right. left. reflexivity. }
    all: reflexivity.
Qed.

Lemma message_without_conversation_witness :
  let db :=
    mk_database
      (Some (mk_table [mk_conversation 1 (lit "a") (lit "2024-03-10 09:00:00")]
                      1))
      (Some (mk_table [] 0)) in
  let db' :=
    snd (save_message db (lit "2024-03-10 09:00:07") None (lit "User")
           (lit "hi")) in
  (forall conversation_id answer,
      get_messages_by_conversation db' conversation_id answer
      <-> get_messages_by_conversation db conversation_id answer)
  /\ exists row,
       msg_sender row = lit "User" /\ msg_message row = lit "hi"
       /\ forall ops,
            exists t, messages (fst (calls db' ops)) = Some t
                      /\ In row (table_rows t).
Proof.
  intros db db'.
  apply (message_without_conversation db db' (lit "2024-03-10 09:00:07")
           (lit "User") (lit "hi")).
  vm_compute. reflexivity.
Defined.

Lemma lookup_by_topic db t topic answer :
  conversations db = Some t ->
  get_conversation_id_by_topic db topic answer ->
  match answer with
  | Some id =>
      exists row,
        In row (table_rows t) /\ conv_id row = id /\ conv_topic row = topic
  | None => forall row, In row (table_rows t) -> conv_topic row <> topic
  end.
Proof.
  intros Ec. unfold get_conversation_id_by_topic. rewrite Ec.
  intros (found & [P _] & ->). destruct found as [|r found].
  - apply Permutation_sym, Permutation_nil in P.
    intros row Hrow Htopic.
    assert (H : In row (filter (fun row => str_eqb (conv_topic row) topic)
                          (table_rows t))).
    { apply filter_In. split; [exact Hrow|].
      rewrite Htopic. apply str_eqb_refl. }
    rewrite P in H. destruct H.
  - assert (H : In r (filter (fun row => str_eqb (conv_topic row) topic)
                        (table_rows t))).
    { eapply Permutation_in; [apply Permutation_sym; exact P|now left]. }
    apply filter_In in H. destruct H as [Hin Ht].
    exists r. repeat split; [exact Hin|].
    now destruct (str_eqb_spec (conv_topic r) topic).
Qed.

(** X22: the button that deletes the selected conversation removes one
    conversation and no more.  In a database with both tables and distinct
    keys, when some conversation has the selected topic, exactly one
    conversation with this topic goes, with all its messages; every other
    conversation stays, also one with the same topic. *)
Theorem selected_conversation_deleted (db db' : database) (topic : str)
  (c : table conversation_row) (m : table message_row) :
  well_formed db ->
  conversations db = Some c -> messages db = Some m ->
  topic <> [] ->
  (exists row, In row (table_rows c) /\ conv_topic row = topic) ->
  delete_selected_conversation db (Some topic) db' ->
  exists row c',
    In row (table_rows c) /\ conv_topic row = topic
    /\ conversations db' = Some c'
    /\ Permutation (table_rows c) (row :: table_rows c')
    /\ forall answer,
         get_messages_by_conversation db' (Some (conv_id row)) answer ->
         answer = [].
Proof.
  intros [Hc _] Ec Em Hne (r0 & Hr0 & Ht0) Hdel.
  destruct topic as [|x topic]; [congruence|].
  cbn [delete_selected_conversation] in Hdel.
  destruct Hdel as (id & Hid & ->).
  pose proof (lookup_by_topic db c _ id Ec Hid) as Hlook.
  destruct id as [id|]; [|now elim (Hlook r0 Hr0)].
  destruct Hlook as (row & Hrow & <- & Htopic).
  unfold delete_conversation. rewrite Em, Ec. cbn [snd].
  exists row. eexists. split; [exact Hrow|]. split; [exact Htopic|].
  split; [reflexivity|]. split.
  - cbn [delete_rows table_rows id_is].
    apply NoDup_key_remove; [|exact Hrow]. now destruct (Hc c Ec).
  - intros answer. unfold get_messages_by_conversation.
    cbn [messages delete_rows table_rows]. intros (found & Hsel & ->).
    rewrite filter_none in Hsel; [now rewrite (selected_nil _ _ Hsel)|].
    intros y Hy. apply filter_In in Hy. destruct Hy as [_ Hy].
    now destruct (column_is (Some (conv_id row)) (msg_conversation_id y)).
Qed.

Lemma selected_conversation_deleted_witness :
  let c :=
    mk_table [mk_conversation 1 (lit "sales") (lit "2024-03-10 09:00:00");
              mk_conversation 2 (lit "sales") (lit "2024-03-10 09:05:00")] 2 in
  let m :=
    mk_table [mk_message 1 (Some 1) (lit "2024-03-10 09:00:05")
                (lit "User") (lit "hi")] 1 in
  let db := mk_database (Some c) (Some m) in
  let db' := snd (delete_conversation db (Some 2)) in
  delete_selected_conversation db (Some (lit "sales")) db'
  /\ exists row c',
       In row (table_rows c) /\ conv_topic row = lit "sales"
       /\ conversations db' = Some c'
       /\ Permutation (table_rows c) (row :: table_rows c')
       /\ forall answer,
            get_messages_by_conversation db' (Some (conv_id row)) answer ->
            answer = [].
Proof.
  intros c m db db'.
  assert (Hdel : delete_selected_conversation db (Some (lit "sales")) db').
  { exists (Some 2). split; [|reflexivity].
    exists [mk_conversation 2 (lit "sales") (lit "2024-03-10 09:05:00");
            mk_conversation 1 (lit "sales") (lit "2024-03-10 09:00:00")].
    split; [|reflexivity]. split; [apply perm_swap|].
    repeat constructor. }
  split; [exact Hdel|].
  apply (selected_conversation_deleted db db' (lit "sales") c m).
  - split; intros t [= <-]; split;
      cbv [c m table_rows sequence map conv_id msg_id].
    + repeat constructor; cbn [In]; intuition lia.
    + intros row [<-|[<-|[]]]; lia.
    + repeat constructor; cbn [In]; intuition.
    + intros row [<-|[]]; lia.
  - reflexivity.
  - reflexivity.
  - discriminate.
  - eexists. split; [left; reflexivity|reflexivity].
  - exact Hdel.
Defined.

(** X23: a conversation that was just saved is found by its topic.  After
    [save_conversation(topic)] the lookup of the topic gives a key, never
    [None]: the key that was returned, or the key of an older conversation
    with the same topic. *)
Theorem saved_topic_is_found (db db' : database) (now topic : str) (id : Z) :
  save_conversation db now topic = (Returns id, db') ->
  forall answer,
    get_conversation_id_by_topic db' topic answer ->
    exists found,
      answer = Some found
      /\ (found = id
          \/ exists t row,
               conversations db = Some t /\ In row (table_rows t)
               /\ conv_topic row = topic /\ conv_id row = found).
Proof.
  unfold save_conversation.
  destruct (conversations db) as [t|] eqn:Ec; [|discriminate].
  destruct (insert_row _ _ t) as [t1|] eqn:Ei; [|discriminate].
  intros [= <- <-] answer Hans. apply insert_row_spec in Ei. subst t1.
  eapply lookup_by_topic in Hans as Hlook; [|reflexivity].
  cbn [table_rows sequence] in *. destruct answer as [found|].
  - exists found. split; [reflexivity|].
    destruct Hlook as (row & Hrow & Hid & Htopic).
    apply in_app_or in Hrow. destruct Hrow as [Hrow|[<-|[]]].
    + right. now exists t, row.
    + left. now rewrite <- Hid.
  - exfalso. apply (Hlook (mk_conversation (next_rowid conv_id t) topic now));
      [|reflexivity].
    apply in_or_app. right. now left.
Qed.

Lemma saved_topic_is_found_witness :
  let db :=
    mk_database
      (Some (mk_table [mk_conversation 1 (lit "a") (lit "2024-03-10 09:00:00")]
                      1))
      (Some (mk_table [] 0)) in
  let db' := snd (save_conversation db (lit "2024-03-10 09:10:00") (lit "b")) in
  save_conversation db (lit "2024-03-10 09:10:00") (lit "b") = (Returns 2, db')
  /\ forall answer,
       get_conversation_id_by_topic db' (lit "b") answer ->
       exists found,
         answer = Some found
         /\ (found = 2
             \/ exists t row,
                  conversations db = Some t /\ In row (table_rows t)
                  /\ conv_topic row = lit "b" /\ conv_id row = found).
Proof.
  intros db db'.
  assert (H : save_conversation db (lit "2024-03-10 09:10:00") (lit "b")
              = (Returns 2, db')) by (vm_compute; reflexivity).
  split; [exact H|].
  exact (saved_topic_is_found db db' (lit "2024-03-10 09:10:00") (lit "b") 2 H).
Defined.

Lemma fold_max_bounded (l : list Z) (z : Z) :
  (forall x, In x l -> x <= z) -> fold_right Z.max z l = z.
Proof.
  induction l as [|a l IH]; intros H; cbn [fold_right]; [reflexivity|].
  rewrite IH by (intros x Hx; apply H; now right).
  specialize (H a (or_introl eq_refl)). lia.
Qed.

Lemma call_next_key db op :
  well_formed db ->
  (snd (call db op) = []
   /\ sequence_of (fst (call db op)) = sequence_of db)
  \/ (snd (call db op) = [sequence_of db + 1]
      /\ sequence_of (fst (call db op)) = sequence_of db + 1).
Proof.
  intros [Hc _].
  destruct op as [|now topic|now cid sender message|cid]; cbn [call].
  - left. cbn [fst snd]. split; [reflexivity|].
    unfold sequence_of, create_db_if_not_there. cbn [conversations].
    now destruct (conversations db).
  - unfold save_conversation, sequence_of.
    destruct (conversations db) as [t|] eqn:E; cbn [fst snd];
      [|left; now rewrite E].
    destruct (insert_row _ _ t) as [t1|] eqn:Ei; cbn [fst snd];
      [|left; now rewrite E].
    apply insert_row_spec in Ei. subst t1. right.
    cbn [conversations sequence]. unfold next_rowid.
    rewrite fold_max_bounded; [now split|].
    intros x Hx. apply in_map_iff in Hx. destruct Hx as (r & <- & Hr).
    now apply (Hc t eq_refl).
  - left. cbn [fst snd]. split; [reflexivity|].
    unfold save_message, sequence_of.
    destruct (messages db) as [t|]; cbn [snd]; [|reflexivity].
    now destruct (insert_row _ _ t).
  - left. cbn [fst snd]. split; [reflexivity|].
    unfold delete_conversation, sequence_of.
    destruct (messages db) as [m|]; [|reflexivity].
    destruct (conversations db) as [c|] eqn:Ec; cbn [snd conversations];
      [reflexivity|now rewrite Ec].
Qed.

Lemma calls_next_keys ops : forall db,
  well_formed db ->
  snd (calls db ops)
  = map (fun k => sequence_of db + Z.of_nat k)
        (seq 1 (length (snd (calls db ops))))
  /\ sequence_of (fst (calls db ops))
     = sequence_of db + Z.of_nat (length (snd (calls db ops))).
Proof.
  induction ops as [|op ops IH]; intros db Hwf; cbn [calls].
  - cbn [fst snd length seq map]. split; [reflexivity|lia].
  - pose proof (call_well_formed db op Hwf) as Hwf1.
    pose proof (call_next_key db op Hwf) as Hkey.
    destruct (call db op) as [db1 ids1]. cbn [fst snd] in Hwf1, Hkey.
    destruct (IH db1 Hwf1) as [I1 I2].
    destruct (calls db1 ops) as [db2 ids2]. cbn [fst snd] in *.
    destruct Hkey as [[-> Hs]|[-> Hs]]; cbn [app length].
    + rewrite <- Hs. now split.
    + split; [|rewrite I2, Hs; lia].
      cbn [seq map]. f_equal; try lia.
      rewrite <- seq_shift, map_map. rewrite I1 at 1. apply map_ext.
      intros k. rewrite Hs. lia.
Qed.

(** X24: in a database that starts as an empty file the keys count the
    conversations.  Whatever is saved and deleted, the keys that
    [save_conversation] returns are 1, 2, 3, ... in this order: the n-th
    conversation ever saved has the key n. *)
Theorem keys_count_conversations (ops : list operation) :
  snd (calls (mk_database None None) ops)
  = map Z.of_nat (seq 1 (length (snd (calls (mk_database None None) ops)))).
Proof.
  destruct (calls_next_keys ops (mk_database None None)) as [H _].
  - split; discriminate.
  - exact H.
Qed.

Local Close Scope Z_scope.
